(** * Servo face tracker: the control core of [face_tracker_servo.py]

    A shallow embedding of [ServoController] (angle clamping, duty-cycle
    conversion, dead zone, slew limit, smoothing), of the target selection and
    the per-frame loop of [FaceTrackerThread], and of the shutdown path of
    [FaceTrackerServoApp], followed by the properties the specification
    states about them.

    Numbers.  Pixel coordinates and frame sizes are Python [int]s: [Z], with
    [//] as [Z.div] (both floor); the key of the target selection is the
    detector's [int32] product, with its wrap-around.  Angles, the duty cycle
    and the tuning constants are Python numbers mixing [int] and [float].
    They are embedded twice: as exact rationals [Q], compared with [==], where
    rounding plays no part; and, for the size of a tracking step, with a
    rounding after every arithmetic operation, which binary64 ([rnd64])
    instantiates.

    Effects.  Methods run in a small monad carrying the object they mutate, the
    sequence of externally visible actions (PWM writes, sleeps, Qt signals)
    and a possible Python exception. *)

From Stdlib Require Import ZArith QArith Qabs Qpower Qround SpecFloat List Bool Lia Lqa.
Import ListNotations.

Local Open Scope Q_scope.

(** ** Python numerics *)

(** [a < b] on rationals, as a boolean. *)
Definition Qltb (a b : Q) : bool := negb (Qle_bool b a).

(** Python's two-argument [max(a, b)]: the first argument unless the second is
    strictly greater. *)
Definition pymax (a b : Q) : Q := if Qltb a b then b else a.

(** Python's two-argument [min(a, b)]: the first argument unless the second is
    strictly smaller. *)
Definition pymin (a b : Q) : Q := if Qltb b a then b else a.

(** The idiom [max(lo, min(hi, v))] used by the source for clamping. *)
Definition clamp (lo hi v : Q) : Q := pymax lo (pymin hi v).

(** ** Observable actions and exceptions *)

Record BoundingBox : Type := Box { box_x : Z; box_y : Z; box_w : Z; box_h : Z }.

Inductive event : Type :=
| GPIOSetup (pin : Z)              (* GPIO.setmode; GPIO.setup(pin, OUT) *)
| PWMStart (pin : Z) (dc : Q)      (* GPIO.PWM(pin, 50).start(dc) *)
| ChangeDutyCycle (dc : Q)         (* self.servo.ChangeDutyCycle(dc) *)
| Sleep (seconds : Q)              (* time.sleep(seconds) *)
| PrintSimulation (angle : Q)      (* print("Servo simulation: Moving to ...") *)
| PrintMessage                     (* the other diagnostic prints *)
| ServoStop                        (* self.servo.stop() *)
| GPIOCleanup                      (* GPIO.cleanup() *)
| CapOpen                          (* cv2.VideoCapture(0) *)
| CapRelease                       (* self.cap.release() *)
| ServoAngleUpdate (angle : Q)     (* servo_angle_update.emit(angle) *)
| FrameReady (faces : list BoundingBox)   (* frame_ready.emit(frame, faces) *)
| MSleep (ms : Z)                  (* self.msleep(ms) *)
| ThreadStart                      (* QThread.start() *)
| ThreadWait                       (* QThread.wait() *)
| TimerStart (ms : Z)              (* update_timer.start(ms) *)
| TimerStop                        (* update_timer.stop() *)
| UiTrackingActive                 (* buttons and labels set to the tracking look *)
| UiStopped                        (* buttons and labels set to the stopped look *)
| UiAngleLabel (angle : Q)         (* angle_label.setText(...) *)
| UiSliderValue (v : Z)            (* angle_slider.setValue(v) *)
| EventAccept.                     (* event.accept() *)

Inductive exn : Type :=
| ZeroDivisionError.

(** ** The method monad: state, output and exceptions *)

Inductive outcome (St A : Type) : Type :=
| Returned (a : A) (st : St) (out : list event)
| Raised (e : exn) (st : St) (out : list event).

Arguments Returned {St A} a st out.
Arguments Raised {St A} e st out.

Definition M (St A : Type) : Type := St -> outcome St A.

Definition ret {St A} (a : A) : M St A := fun st => Returned a st [].

Definition bind {St A B} (m : M St A) (k : A -> M St B) : M St B :=
  fun st =>
    match m st with
    | Returned a st1 o1 =>
        match k a st1 with
        | Returned b st2 o2 => Returned b st2 (o1 ++ o2)
        | Raised e st2 o2 => Raised e st2 (o1 ++ o2)
        end
    | Raised e st1 o1 => Raised e st1 o1
    end.

Definition get {St} : M St St := fun st => Returned st st [].
Definition put {St} (st : St) : M St unit := fun _ => Returned tt st [].
Definition emit {St} (e : event) : M St unit := fun st => Returned tt st [e].
Definition raise {St A} (e : exn) : M St A := fun st => Raised e st [].

(** Run a method of a component object stored inside a larger one. *)
Definition zoom {St Sub A} (proj : St -> Sub) (upd : Sub -> St -> St)
  (m : M Sub A) : M St A :=
  fun st =>
    match m (proj st) with
    | Returned a sub o => Returned a (upd sub st) o
    | Raised e sub o => Raised e (upd sub st) o
    end.

Declare Scope method_scope.
Delimit Scope method_scope with method.
Notation "x <- m ;; k" := (bind m (fun x => k))
  (at level 61, m at next level, right associativity) : method_scope.
Notation "m ;; k" := (bind m (fun _ => k))
  (at level 61, right associativity) : method_scope.
Local Open Scope method_scope.

(** The state, output and exception of an outcome. *)
Definition final {St A} (r : outcome St A) : St :=
  match r with Returned _ st _ | Raised _ st _ => st end.

Definition output {St A} (r : outcome St A) : list event :=
  match r with Returned _ _ o | Raised _ _ o => o end.

Definition raised {St A} (r : outcome St A) : option exn :=
  match r with Returned _ _ _ => None | Raised e _ _ => Some e end.

(** ** [class ServoController] *)

Record ServoController : Type := mkServo {
  pin : Z;
  min_angle : Q;
  max_angle : Q;
  center_angle : Q;
  current_angle : Q;
  smoothing_factor : Q;
  dead_zone : Q;
  max_speed : Q;
  hardware_available : bool
}.

Definition with_current_angle (s : ServoController) (a : Q) : ServoController :=
  mkServo (pin s) (min_angle s) (max_angle s) (center_angle s) a
    (smoothing_factor s) (dead_zone s) (max_speed s) (hardware_available s).

(** [ServoController.__init__(pin, min_angle, max_angle, center_angle)].
    [gpio] tells whether [import RPi.GPIO] succeeds.  The result is the new
    object and what the constructor did. *)
Definition ServoController_init (pin : Z) (min_angle max_angle center_angle : Q)
  (gpio : bool) : ServoController * list event :=
  (mkServo pin min_angle max_angle center_angle center_angle
     0.3 20 2 gpio,
   if gpio then [GPIOSetup pin; PWMStart pin 0; PrintMessage]
   else [PrintMessage]).

(** [ServoController()] with the default arguments, as the application and the
    test script build it. *)
Definition ServoController_default (gpio : bool) : ServoController :=
  fst (ServoController_init 18 0 180 90 gpio).

(** The duty cycle written for an angle: [(angle / 180) * 10 + 2.5]. *)
Definition duty_cycle (angle : Q) : Q := (angle / 180) * 10 + 2.5.

(** [ServoController.set_angle(angle)]. *)
Definition set_angle (angle : Q) : M ServoController unit :=
  s <- get ;;
  let angle := pymax (min_angle s) (pymin (max_angle s) angle) in
  (if hardware_available s then
     emit (ChangeDutyCycle (duty_cycle angle)) ;;
     emit (Sleep 0.1) ;;
     emit (ChangeDutyCycle 0)
   else
     emit (PrintSimulation angle)) ;;
  put (with_current_angle s angle).

(** [ServoController.track_face(face_x, face_y, frame_width, frame_height)]
    on Python integers. *)
Definition track_face (face_x face_y frame_width frame_height : Z)
  : M ServoController unit :=
  s <- get ;;
  let frame_center_x := (frame_width / 2)%Z in
  let offset_x := (face_x - frame_center_x)%Z in
  if Qltb (inject_Z (Z.abs offset_x)) (dead_zone s) then ret tt
  else if (frame_center_x =? 0)%Z then raise ZeroDivisionError
  else
    let angle_change :=
      (inject_Z offset_x / inject_Z frame_center_x)
      * (max_angle s - min_angle s) * 0.5 in
    let target_angle := center_angle s - angle_change in
    let angle_diff := target_angle - current_angle s in
    let angle_diff := pymax (- max_speed s) (pymin (max_speed s) angle_diff) in
    let new_angle := current_angle s + angle_diff * smoothing_factor s in
    set_angle new_angle.

(** [ServoController.center_servo()]. *)
Definition center_servo : M ServoController unit :=
  s <- get ;;
  set_angle (center_angle s).

(** [ServoController.cleanup()]. *)
Definition cleanup : M ServoController unit :=
  s <- get ;;
  if hardware_available s then emit ServoStop ;; emit GPIOCleanup
  else ret tt.

(** ** Target selection and the frame loop of [class FaceTrackerThread] *)

(** The value of a 32-bit signed integer operation whose exact result is
    [z]: the detector delivers its boxes as rows of [int32], and arithmetic
    on such scalars wraps around. *)
Definition wrap32 (z : Z) : Z := ((z + 2 ^ 31) mod 2 ^ 32 - 2 ^ 31)%Z.

(** The key of the selection, [lambda x: x[2] * x[3]], on [int32] scalars. *)
Definition area (b : BoundingBox) : Z := wrap32 (box_w b * box_h b).

(** A box whose exact product [w * h] is itself an [int32] value, as for
    every box inside a frame of fewer than [2 ^ 31] pixels. *)
Definition int32_product (b : BoundingBox) : Prop :=
  (- 2 ^ 31 <= box_w b * box_h b < 2 ^ 31)%Z.

(** Python's [max(iterable, key=key)] once the first item has been taken as
    the current best: a later item replaces it only when its key is strictly
    greater. *)
Fixpoint max_from {A : Type} (key : A -> Z) (best : A) (rest : list A) : A :=
  match rest with
  | [] => best
  | item :: rest' =>
      if (key best <? key item)%Z then max_from key item rest'
      else max_from key best rest'
  end.

(** [max(faces, key=lambda x: x[2] * x[3])] under the guard
    [if len(faces) > 0]; [None] when the guard fails. *)
Definition largest_face (faces : list BoundingBox) : option BoundingBox :=
  match faces with
  | [] => None
  | first :: rest => Some (max_from area first rest)
  end.

(** What one [cap.read()] and the detector deliver: the frame's
    [shape[1]] and [shape[0]] and the boxes found in it. *)
Record Frame : Type := mkFrame {
  shape1 : Z;
  shape0 : Z;
  detections : list BoundingBox
}.

(** [cap] is [None] until [run] creates the capture; then it records whether
    the capture is open.  [servo_controller] refers to the controller the
    thread was given. *)
Record FaceTrackerThread : Type := mkThread {
  running : bool;
  cap : option bool;
  servo_controller : ServoController
}.

(** [FaceTrackerThread.__init__(servo_controller)]. *)
Definition FaceTrackerThread_init (sc : ServoController) : FaceTrackerThread :=
  mkThread false None sc.

Definition on_servo_controller {A : Type} (m : M ServoController A)
  : M FaceTrackerThread A :=
  zoom servo_controller (fun sc t => mkThread (running t) (cap t) sc) m.

Definition set_running (b : bool) : M FaceTrackerThread unit :=
  t <- get ;; put (mkThread b (cap t) (servo_controller t)).

Definition set_cap (c : option bool) : M FaceTrackerThread unit :=
  t <- get ;; put (mkThread (running t) c (servo_controller t)).

(** One pass through the body of [while self.running:]; [rd] is [Some frame]
    when [cap.read()] returned [ret = True].  The face centre is handed to
    [track_face] as an integer: the detector's [int32] scalars are taken at
    their integer value, for boxes whose [x + w // 2] is itself an [int32]
    value. *)
Definition loop_body (rd : option Frame) : M FaceTrackerThread unit :=
  (match rd with
   | Some frame =>
       let faces := detections frame in
       (match largest_face faces with
        | Some (Box x y w h) =>
            let face_center_x := (x + w / 2)%Z in
            let face_center_y := (y + h / 2)%Z in
            on_servo_controller
              (track_face face_center_x face_center_y
                 (shape1 frame) (shape0 frame)) ;;
            t <- get ;;
            emit (ServoAngleUpdate (current_angle (servo_controller t)))
        | None => ret tt
        end) ;;
       let faces_list := if (0 <? length faces)%nat then faces else [] in
       emit (FrameReady faces_list)
   | None => ret tt
   end) ;;
  emit (MSleep 30).

(** The passes of the loop, one per read made while [self.running] is seen
    true; the flag is cleared from outside by [stop]. *)
Fixpoint while_running (reads : list (option Frame)) : M FaceTrackerThread unit :=
  match reads with
  | [] => ret tt
  | rd :: later => loop_body rd ;; while_running later
  end.

(** [FaceTrackerThread.run()]; [opened] is the answer of [cap.isOpened()]. *)
Definition run (opened : bool) (reads : list (option Frame))
  : M FaceTrackerThread unit :=
  emit CapOpen ;;
  set_cap (Some opened) ;;
  if negb opened then emit PrintMessage
  else
    on_servo_controller center_servo ;;
    set_running true ;;
    while_running reads.

(** [FaceTrackerThread.stop()]. *)
Definition stop : M FaceTrackerThread unit :=
  set_running false ;;
  t <- get ;;
  (match cap t with
   | Some _ => emit CapRelease ;; set_cap (Some false)
   | None => ret tt
   end) ;;
  emit ThreadWait.

(** ** The tracking controls of [class FaceTrackerServoApp] *)

(** The window owns the controller ([self.servo_controller], here
    [app_servo]); a thread it starts refers to the same object.  The
    controller is therefore stored once, and [tracker_thread] holds the
    thread's own fields, [running] and [cap]. *)
Record FaceTrackerServoApp : Type := mkApp {
  app_servo : ServoController;
  tracker_thread : option (bool * option bool);
  is_tracking : bool
}.

(** [FaceTrackerServoApp.__init__()]. *)
Definition FaceTrackerServoApp_init (gpio : bool) : FaceTrackerServoApp :=
  mkApp (ServoController_default gpio) None false.

Definition on_app_servo {A : Type} (m : M ServoController A)
  : M FaceTrackerServoApp A :=
  zoom app_servo (fun sc a => mkApp sc (tracker_thread a) (is_tracking a)) m.

(** A method of the thread object held in [tracker_thread], run on the shared
    controller. *)
Definition on_tracker_thread {A : Type} (rc : bool * option bool)
  (m : M FaceTrackerThread A) : M FaceTrackerServoApp A :=
  zoom (fun a => mkThread (fst rc) (snd rc) (app_servo a))
       (fun t a => mkApp (servo_controller t) (Some (running t, cap t))
                     (is_tracking a))
       m.

Definition set_tracker_thread (th : option (bool * option bool))
  : M FaceTrackerServoApp unit :=
  a <- get ;; put (mkApp (app_servo a) th (is_tracking a)).

Definition set_is_tracking (b : bool) : M FaceTrackerServoApp unit :=
  a <- get ;; put (mkApp (app_servo a) (tracker_thread a) b).

(** [on_angle_slider_changed(value)]. *)
Definition on_angle_slider_changed (value : Z) : M FaceTrackerServoApp unit :=
  on_app_servo (set_angle (inject_Z value)) ;;
  emit (UiAngleLabel (inject_Z value)).

(** [FaceTrackerServoApp.center_servo()]. *)
Definition app_center_servo : M FaceTrackerServoApp unit :=
  on_app_servo center_servo ;;
  emit (UiSliderValue 90) ;;
  emit (UiAngleLabel 90).

(** [start_tracking()]: the thread object is created and started; its [run]
    then proceeds on its own. *)
Definition start_tracking : M FaceTrackerServoApp unit :=
  set_tracker_thread (Some (false, None)) ;;
  emit ThreadStart ;;
  set_is_tracking true ;;
  emit UiTrackingActive ;;
  emit (TimerStart 1000).

(** [stop_tracking()]. *)
Definition stop_tracking : M FaceTrackerServoApp unit :=
  a <- get ;;
  (match tracker_thread a with
   | Some rc => on_tracker_thread rc stop ;; set_tracker_thread None
   | None => ret tt
   end) ;;
  set_is_tracking false ;;
  emit UiStopped ;;
  emit TimerStop.

(** [closeEvent(event)]. *)
Definition closeEvent : M FaceTrackerServoApp unit :=
  stop_tracking ;;
  on_app_servo cleanup ;;
  emit EventAccept.

(** The started thread's [run], seen from the window: it works on the shared
    controller; an exception ends the thread, not the window. *)
Definition thread_runs (opened : bool) (reads : list (option Frame))
  (a : FaceTrackerServoApp) : FaceTrackerServoApp * list event :=
  match tracker_thread a with
  | Some rc =>
      let r := on_tracker_thread rc (run opened reads) a in
      (final r, output r)
  | None => (a, [])
  end.

(** ** Sequences of controller calls *)

(** The three mutating methods of the controller, as data. *)
Inductive command : Type :=
| SetAngle (angle : Q)
| CenterServo
| TrackFace (face_x face_y frame_width frame_height : Z).

Definition perform (c : command) : M ServoController unit :=
  match c with
  | SetAngle angle => set_angle angle
  | CenterServo => center_servo
  | TrackFace face_x face_y frame_width frame_height =>
      track_face face_x face_y frame_width frame_height
  end.

(** The controller after a sequence of calls; a call that raises leaves the
    controller as it was when the exception left it. *)
Fixpoint perform_all (cs : list command) (s : ServoController) : ServoController :=
  match cs with
  | [] => s
  | c :: later => perform_all later (final (perform c s))
  end.

(** The states a controller built as [s0] can be in. *)
Inductive reachable (s0 : ServoController) : ServoController -> Prop :=
| reachable_built : reachable s0 s0
| reachable_call (s : ServoController) (c : command) :
    reachable s0 s -> reachable s0 (final (perform c s)).

(** [n] identical ticks in a row. *)
Fixpoint repeat_call (n : nat) (m : M ServoController unit) : M ServoController unit :=
  match n with
  | O => ret tt
  | S n' => m ;; repeat_call n' m
  end.

(** The controller call one pass of the loop makes, if any. *)
Definition tick_command (rd : option Frame) : option command :=
  match rd with
  | Some frame =>
      match largest_face (detections frame) with
      | Some (Box x y w h) =>
          Some (TrackFace (x + w / 2) (y + h / 2) (shape1 frame) (shape0 frame))
      | None => None
      end
  | None => None
  end.

(** ** Sessions and classes of actions *)

(** A whole tracking session of a fresh window: [start_tracking()], the
    thread's [run] over the reads it gets, then [stop_tracking()].  The result
    is the window afterwards and everything that was done, in order. *)
Definition tracking_session (gpio opened : bool) (reads : list (option Frame))
  : FaceTrackerServoApp * list event :=
  let r1 := start_tracking (FaceTrackerServoApp_init gpio) in
  let a2 := thread_runs opened reads (final r1) in
  let r3 := stop_tracking (fst a2) in
  (final r3, output r1 ++ snd a2 ++ output r3).

(** The actions that free the actuator. *)
Definition releases_actuator (e : event) : bool :=
  match e with
  | ServoStop | GPIOCleanup => true
  | _ => false
  end.

(** The actions that drive or report the servo position. *)
Definition moves_servo (e : event) : bool :=
  match e with
  | ChangeDutyCycle _ | PrintSimulation _ => true
  | _ => false
  end.

(** The notifications of the angle to observers. *)
Definition publishes_angle (e : event) : bool :=
  match e with
  | ServoAngleUpdate _ => true
  | _ => false
  end.

(** A method that frees the actuator in no state. *)
Definition never_releases {St A : Type} (m : M St A) : Prop :=
  forall st, existsb releases_actuator (output (m st)) = false.

(** ** State predicates *)

(** The range invariant of the specification's [ServoState]. *)
Definition in_range (s : ServoController) : Prop :=
  min_angle s <= current_angle s /\ current_angle s <= max_angle s.


(** Everything of a controller except the stored angle. *)
Definition configuration (s : ServoController)
  : Z * Q * Q * Q * Q * Q * Q * bool :=
  (pin s, min_angle s, max_angle s, center_angle s,
   smoothing_factor s, dead_zone s, max_speed s, hardware_available s).

(** ** The algorithm as the specification words it *)

(** [compute_next_angle(target_center_x, frame_width)] of the specification,
    steps 1 to 7: the frame centre is [frame_width / 2] as a fraction, a
    non-positive width is the error [InvalidFrameGeometry] (here [None]), and
    the proportional target is clamped before the slew limit. *)
Definition spec_compute_next_angle (s : ServoController)
  (target_center_x frame_width : Z) : option Q :=
  let half := inject_Z frame_width / 2 in
  let offset := inject_Z target_center_x - half in
  if Qle_bool (inject_Z frame_width) 0 then None
  else if Qltb (Qabs offset) (dead_zone s) then Some (current_angle s)
  else
    let angle_change := (offset / half) * (max_angle s - min_angle s) * 0.5 in
    let target := clamp (min_angle s) (max_angle s) (center_angle s - angle_change) in
    let diff := clamp (- max_speed s) (max_speed s) (target - current_angle s) in
    Some (clamp (min_angle s) (max_angle s)
            (current_angle s + diff * smoothing_factor s)).

(** ** Further methods of the window *)

(** [FaceTrackerServoApp.toggle_tracking()]. *)
Definition toggle_tracking : M FaceTrackerServoApp unit :=
  a <- get ;;
  if negb (is_tracking a) then start_tracking else stop_tracking.

(** What happens to a window: its two tracking buttons, the slider, the
    started thread doing its [run], and the close box. *)
Inductive window_action : Type :=
| StartButton                      (* clicked -> toggle_tracking *)
| StopButton                       (* clicked -> stop_tracking *)
| SliderMoved (value : Z)          (* valueChanged -> on_angle_slider_changed *)
| ThreadRuns (opened : bool) (reads : list (option Frame))
| WindowClosed.                    (* closeEvent *)

Definition window_step (act : window_action) (a : FaceTrackerServoApp)
  : FaceTrackerServoApp :=
  match act with
  | StartButton => final (toggle_tracking a)
  | StopButton => final (stop_tracking a)
  | SliderMoved value => final (on_angle_slider_changed value a)
  | ThreadRuns opened reads => fst (thread_runs opened reads a)
  | WindowClosed => final (closeEvent a)
  end.

Fixpoint window_steps (acts : list window_action) (a : FaceTrackerServoApp)
  : FaceTrackerServoApp :=
  match acts with
  | [] => a
  | act :: later => window_steps later (window_step act a)
  end.

(** ** Observations on outputs and targets *)

(** The proportional target of [track_face]: [center_angle - angle_change]
    with the offset taken from [frame_width // 2]. *)
Definition target_angle (s : ServoController) (face_x frame_width : Z) : Q :=
  center_angle s
  - inject_Z (face_x - frame_width / 2) / inject_Z (frame_width / 2)
    * (max_angle s - min_angle s) * 0.5.

(** The duty cycles written, in order. *)
Definition pwm_writes (out : list event) : list Q :=
  flat_map (fun e => match e with ChangeDutyCycle dc => [dc] | _ => [] end) out.

(** The writes come in pairs whose second member is 0. *)
Fixpoint pulsed (ws : list Q) : bool :=
  match ws with
  | [] => true
  | _ :: rest =>
      match rest with
      | [] => false
      | w0 :: rest' => Qeq_bool w0 0 && pulsed rest'
      end
  end.

(** The actions that reach the GPIO hardware or wait for it. *)
Definition hardware_action (e : event) : bool :=
  match e with
  | GPIOSetup _ | PWMStart _ _ | ChangeDutyCycle _ | Sleep _
  | ServoStop | GPIOCleanup => true
  | _ => false
  end.

(** The face lists handed to [frame_ready], in order. *)
Definition published_frames (out : list event) : list (list BoundingBox) :=
  flat_map (fun e => match e with FrameReady faces => [faces] | _ => [] end) out.

(** The face lists of the reads that delivered a frame, in order. *)
Definition delivered_frames (reads : list (option Frame))
  : list (list BoundingBox) :=
  flat_map (fun rd => match rd with Some frame => [detections frame] | None => [] end)
    reads.

(** A read whose frame, if any, has a centre column other than 0. *)
Definition wide_enough (rd : option Frame) : Prop :=
  match rd with
  | Some frame => (shape1 frame / 2 <> 0)%Z
  | None => True
  end.

(** A method that, started in a state satisfying [I], ends in one (returning
    or raising) and produces an output satisfying [Out]. *)
Definition maintains {St A : Type} (I : St -> Prop) (Out : list event -> Prop)
  (m : M St A) : Prop :=
  forall st, I st -> I (final (m st)) /\ Out (output (m st)).

(** A read that delivers no detected face. *)
Definition faceless (rd : option Frame) : Prop :=
  match rd with
  | Some frame => detections frame = []
  | None => True
  end.

(** [is_tracking] says whether the window holds a thread. *)
Definition tracking_consistent (a : FaceTrackerServoApp) : Prop :=
  is_tracking a = match tracker_thread a with Some _ => true | None => false end.

(** ** The controller in rounded arithmetic *)

(** Python computes the angles in binary64.  The methods below are the same
    methods with every arithmetic operation on angles followed by a rounding
    [rnd] of its exact result; comparisons, [max], [min] and negation do not
    round.  With the identity for [rnd] they are the methods above. *)

Section Rounded.

Variable rnd : Q -> Q.








End Rounded.

(** The rational that a binary floating-point datum stands for; the
    infinities and NaN, which no rounding below produces, are sent to 0. *)
Definition SF2Q (f : spec_float) : Q :=
  match f with
  | S754_finite s m e =>
      (if s then inject_Z (Zneg m) else inject_Z (Zpos m)) * 2 ^ e
  | _ => 0
  end.

(** Rounding to binary64 (53 bits, round to nearest, ties to even): the
    correctly rounded quotient of the numerator by the denominator, computed
    by the standard library's specification of IEEE 754 division. *)
Definition rnd64 (q : Q) : Q :=
  match Qnum q with
  | Z0 => 0
  | Zpos n =>
      Qred (SF2Q (SFdiv 53 1024 (S754_finite false n 0)
                    (S754_finite false (Qden q) 0)))
  | Zneg n =>
      Qred (SF2Q (SFdiv 53 1024 (S754_finite true n 0)
                    (S754_finite false (Qden q) 0)))
  end.



(** * Properties *)

(** ** Comparisons and clamping *)

Lemma Qltb_true (a b : Q) : Qltb a b = true <-> a < b.
Proof.
  unfold Qltb. rewrite negb_true_iff.
  split; intro H.
  - apply Qnot_le_lt. intro Hle. apply Qle_bool_iff in Hle. congruence.
  - destruct (Qle_bool b a) eqn:E; [|reflexivity].
    apply Qle_bool_iff in E. exfalso. apply (Qlt_not_le _ _ H E).
Qed.

Lemma Qltb_false (a b : Q) : Qltb a b = false <-> b <= a.
Proof.
  unfold Qltb. rewrite negb_false_iff. apply Qle_bool_iff.
Qed.

(** Split on every comparison of a goal about [pymax], [pymin] and [clamp],
    keeping the outcome as an inequality. *)
Ltac no_comparison_in t :=
  lazymatch t with
  | context [Qltb _ _] => fail
  | _ => idtac
  end.

Ltac split_comparisons :=
  unfold clamp, pymax, pymin in *;
  repeat match goal with
    | |- context [Qltb ?a ?b] =>
        no_comparison_in a; no_comparison_in b;
        let E := fresh "E" in
        destruct (Qltb a b) eqn:E;
        [apply Qltb_true in E | apply Qltb_false in E]
    end.

Lemma clamp_bounds (lo hi v : Q) :
  lo <= hi -> lo <= clamp lo hi v /\ clamp lo hi v <= hi.
Proof. intro H. split_comparisons; split; lra. Qed.

Lemma clamp_inside (lo hi v : Q) :
  lo <= v -> v <= hi -> clamp lo hi v == v.
Proof. intros H1 H2. split_comparisons; lra. Qed.





(** ** What [set_angle] and [track_face] do, case by case *)

Lemma set_angle_eq (angle : Q) (s : ServoController) :
  set_angle angle s =
  Returned tt
    (with_current_angle s (clamp (min_angle s) (max_angle s) angle))
    (if hardware_available s then
       [ChangeDutyCycle (duty_cycle (clamp (min_angle s) (max_angle s) angle));
        Sleep 0.1; ChangeDutyCycle 0]
     else [PrintSimulation (clamp (min_angle s) (max_angle s) angle)]).
Proof.
  unfold set_angle, bind, get, put, emit, clamp.
  destruct (hardware_available s); reflexivity.
Qed.

Lemma center_servo_eq (s : ServoController) :
  center_servo s = set_angle (center_angle s) s.
Proof.
  unfold center_servo, bind, get.
  destruct (set_angle (center_angle s) s); reflexivity.
Qed.

Lemma track_face_dead_zone (face_x face_y frame_width frame_height : Z)
  (s : ServoController) :
  inject_Z (Z.abs (face_x - frame_width / 2)) < dead_zone s ->
  track_face face_x face_y frame_width frame_height s = Returned tt s [].
Proof.
  intro H. apply Qltb_true in H.
  unfold track_face, bind, get. cbn. rewrite H. reflexivity.
Qed.

Lemma track_face_zero_division (face_x face_y frame_width frame_height : Z)
  (s : ServoController) :
  dead_zone s <= inject_Z (Z.abs (face_x - frame_width / 2)) ->
  (frame_width / 2 = 0)%Z ->
  track_face face_x face_y frame_width frame_height s =
  Raised ZeroDivisionError s [].
Proof.
  intros H Hc. apply Qltb_false in H.
  unfold track_face, bind, get. cbn. rewrite H.
  apply Z.eqb_eq in Hc. rewrite Hc. reflexivity.
Qed.

Lemma track_face_moves (face_x face_y frame_width frame_height : Z)
  (s : ServoController) :
  dead_zone s <= inject_Z (Z.abs (face_x - frame_width / 2)) ->
  (frame_width / 2 <> 0)%Z ->
  track_face face_x face_y frame_width frame_height s =
  set_angle
    (current_angle s
     + clamp (- max_speed s) (max_speed s)
         (center_angle s
          - inject_Z (face_x - frame_width / 2) / inject_Z (frame_width / 2)
            * (max_angle s - min_angle s) * 0.5
          - current_angle s)
       * smoothing_factor s) s.
Proof.
  intros H Hc. apply Qltb_false in H.
  unfold track_face, bind, get. cbn. rewrite H.
  apply Z.eqb_neq in Hc. rewrite Hc.
  match goal with |- match ?m with _ => _ end = ?m' => change m' with m; destruct m end;
    reflexivity.
Qed.

(** Every call of [track_face] falls under one of the three cases. *)
Lemma track_face_cases (face_x frame_width : Z) (s : ServoController) :
  inject_Z (Z.abs (face_x - frame_width / 2)) < dead_zone s
  \/ (dead_zone s <= inject_Z (Z.abs (face_x - frame_width / 2))
      /\ (frame_width / 2 = 0)%Z)
  \/ (dead_zone s <= inject_Z (Z.abs (face_x - frame_width / 2))
      /\ (frame_width / 2 <> 0)%Z).
Proof.
  destruct (Qlt_le_dec (inject_Z (Z.abs (face_x - frame_width / 2))) (dead_zone s))
    as [H | H]; [left; exact H | right].
  destruct (Z.eq_dec (frame_width / 2) 0); [left | right]; split; assumption.
Qed.

(** ** Comparisons and clamping respect [==] *)

Lemma Qltb_compat (a a' b b' : Q) : a == a' -> b == b' -> Qltb a b = Qltb a' b'.
Proof.
  intros Ha Hb. unfold Qltb. f_equal. apply Qleb_comp; assumption.
Qed.

Lemma clamp_compat (lo lo' hi hi' v v' : Q) :
  lo == lo' -> hi == hi' -> v == v' -> clamp lo hi v == clamp lo' hi' v'.
Proof.
  intros Hlo Hhi Hv. split_comparisons; lra.
Qed.

Lemma inject_Z_half_even (n : Z) :
  Z.even n = true -> inject_Z (n / 2) == inject_Z n / 2.
Proof.
  intro He. apply Z.even_spec in He. destruct He as [k Hk]. subst n.
  rewrite Z.mul_comm, Z.div_mul by discriminate.
  rewrite inject_Z_mult. change (inject_Z 2) with 2. field.
Qed.

(** ** The tracking step against the specification's algorithm *)

(** C1, as the code has it.  Outside the dead zone and with a frame centre
    [frame_width // 2] other than 0, [track_face] returns normally and stores
    [clamp(current + clamp(center - angle_change - current, -max_speed,
    +max_speed) * smoothing, min, max)], where the offset is taken from the
    floored centre [frame_width // 2] and the proportional target
    [center - angle_change] is not clamped.  When moreover the width is
    positive and even and that target lies in [[min_angle, max_angle]], the
    stored angle is the one the specification's algorithm gives.  On the
    specification's example (default controller at 90, face at 400 in a 640
    wide frame) the stored angle is 89.4. *)
Theorem track_face_proportional_step :
  (forall (face_x face_y frame_width frame_height : Z) (s : ServoController),
      dead_zone s <= inject_Z (Z.abs (face_x - frame_width / 2)) ->
      (frame_width / 2 <> 0)%Z ->
      let offset := inject_Z (face_x - frame_width / 2) in
      let angle_change :=
        offset / inject_Z (frame_width / 2)
        * (max_angle s - min_angle s) * 0.5 in
      let target := center_angle s - angle_change in
      let diff := clamp (- max_speed s) (max_speed s) (target - current_angle s) in
      let new_angle :=
        clamp (min_angle s) (max_angle s)
          (current_angle s + diff * smoothing_factor s) in
      let r := track_face face_x face_y frame_width frame_height s in
      raised r = None
      /\ final r = with_current_angle s new_angle
      /\ ((0 < frame_width)%Z -> Z.even frame_width = true ->
          min_angle s <= target -> target <= max_angle s ->
          exists a, spec_compute_next_angle s face_x frame_width = Some a
                    /\ a == new_angle))
  /\ (forall (face_y frame_height : Z) (gpio : bool),
        let r := track_face 400 face_y 640 frame_height
                   (ServoController_default gpio) in
        raised r = None
        /\ current_angle (final r) == 89.4
        /\ Qabs (current_angle (final r) - 89.4) <= 0.000001).
Proof.
  split.
  - intros face_x face_y frame_width frame_height s Hdz Hc
      offset angle_change target diff new_angle r.
    subst r. rewrite (track_face_moves face_x face_y _ frame_height s Hdz Hc).
    rewrite set_angle_eq. cbn [raised final].
    split; [reflexivity | split; [reflexivity |]].
    intros Hpos Heven Hlo Hhi.
    unfold spec_compute_next_angle.
    assert (Hw : Qle_bool (inject_Z frame_width) 0 = false).
    { destruct (Qle_bool (inject_Z frame_width) 0) eqn:E; [|reflexivity].
      apply Qle_bool_iff in E. unfold Qle in E. cbn in E. lia. }
    rewrite Hw.
    assert (Hhalf : inject_Z frame_width / 2 == inject_Z (frame_width / 2)).
    { symmetry. apply inject_Z_half_even. exact Heven. }
    assert (Hoff : inject_Z face_x - inject_Z frame_width / 2 == offset).
    { unfold offset, Z.sub. rewrite inject_Z_plus, inject_Z_opp, Hhalf. ring. }
    assert (Habs : Qltb (Qabs (inject_Z face_x - inject_Z frame_width / 2))
                     (dead_zone s) = false).
    { rewrite (Qltb_compat _ (Qabs offset) _ (dead_zone s));
        [| rewrite Hoff; reflexivity | reflexivity].
      apply Qltb_false. exact Hdz. }
    rewrite Habs. eexists. split; [reflexivity |].
    unfold new_angle, diff.
    apply clamp_compat; try reflexivity.
    apply Qplus_comp; [reflexivity |].
    apply Qmult_comp; [| reflexivity].
    apply clamp_compat; try reflexivity.
    apply Qplus_comp; [| reflexivity].
    rewrite clamp_inside.
    + unfold target, angle_change. rewrite Hoff, Hhalf. reflexivity.
    + rewrite Hoff, Hhalf. exact Hlo.
    + rewrite Hoff, Hhalf. exact Hhi.
  - intros face_y frame_height gpio r. subst r.
    destruct gpio; vm_compute; repeat split; discriminate.
Qed.

(** The step at the specification's example: every premise holds there, the
    code and the specification's algorithm agree, and both give 89.4. *)
Lemma track_face_proportional_step_witness :
  let s := ServoController_default false in
  let r := track_face 400 240 640 480 s in
  raised r = None
  /\ current_angle (final r) == 89.4
  /\ exists a, spec_compute_next_angle s 400 640 = Some a
               /\ a == current_angle (final r).
Proof.
  intros s r.
  assert (Hdz : dead_zone s <= inject_Z (Z.abs (400 - 640 / 2))) by (now vm_compute).
  assert (Hc : (640 / 2 <> 0)%Z) by (now vm_compute).
  destruct (proj1 track_face_proportional_step 400%Z 240%Z 640%Z 480%Z s Hdz Hc)
    as (Hr & Hf & Hs).
  split; [exact Hr | split].
  - fold r in Hf. rewrite Hf. now vm_compute.
  - destruct Hs as (a & Ha & Hq).
    + reflexivity.
    + reflexivity.
    + now vm_compute.
    + now vm_compute.
    + exists a. split; [exact Ha |].
      rewrite Hq. fold r in Hf. rewrite Hf. reflexivity.
Defined.

(** C1 as worded fails at two kinds of input.  With an odd width (641) the
    code measures the offset from [641 // 2 = 320], the specification from
    320.5: from 68 the code stores 67.85, the specification's algorithm gives
    another angle.  With a target beyond the range (controller centred at 179,
    face at the left edge) the code limits the unclamped difference and stores
    179.6, the specification's algorithm clamps the target first and gives
    179.3. *)
Lemma track_face_differs_from_spec_algorithm :
  (let s := final (set_angle 68 (ServoController_default false)) in
   dead_zone s <= inject_Z (Z.abs (400 - 641 / 2))
   /\ current_angle (final (track_face 400 240 641 480 s)) == 67.85
   /\ exists a, spec_compute_next_angle s 400 641 = Some a /\ ~ a == 67.85)
  /\ (let s := fst (ServoController_init 18 0 180 179 false) in
      dead_zone s <= inject_Z (Z.abs (0 - 640 / 2))
      /\ current_angle (final (track_face 0 240 640 480 s)) == 179.6
      /\ exists a, spec_compute_next_angle s 0 640 = Some a /\ a == 179.3).
Proof.
  split; cbv zeta.
  - split; [now vm_compute | split; [now vm_compute |]].
    eexists. split; [vm_compute; reflexivity | now vm_compute].
  - split; [now vm_compute | split; [now vm_compute |]].
    eexists. split; [vm_compute; reflexivity | now vm_compute].
Qed.

(** ** Frames of non-positive width *)

(** C3, as the code has it.  [track_face] does not look at the sign of
    [frame_width] and knows no [InvalidFrameGeometry].  For a width [<= 0]:
    inside the dead zone the call returns with nothing changed; outside it, a
    width of 0 makes the division raise [ZeroDivisionError], with the
    controller unchanged and nothing written; a negative width is processed
    like any other and the angle is updated through [set_angle]. *)
Theorem track_face_nonpositive_width
  (face_x face_y frame_width frame_height : Z) (s : ServoController) :
  (frame_width <= 0)%Z ->
  let r := track_face face_x face_y frame_width frame_height s in
  (inject_Z (Z.abs (face_x - frame_width / 2)) < dead_zone s ->
   r = Returned tt s [])
  /\ (dead_zone s <= inject_Z (Z.abs (face_x - frame_width / 2)) ->
      frame_width = 0%Z ->
      r = Raised ZeroDivisionError s [])
  /\ (dead_zone s <= inject_Z (Z.abs (face_x - frame_width / 2)) ->
      (frame_width < 0)%Z ->
      raised r = None
      /\ r = set_angle
               (current_angle s
                + clamp (- max_speed s) (max_speed s)
                    (center_angle s
                     - inject_Z (face_x - frame_width / 2)
                       / inject_Z (frame_width / 2)
                       * (max_angle s - min_angle s) * 0.5
                     - current_angle s)
                  * smoothing_factor s) s).
Proof.
  intros Hw r. subst r. repeat split.
  - intro H. apply track_face_dead_zone. exact H.
  - intros H H0. apply track_face_zero_division; [exact H |].
    subst frame_width. reflexivity.
  - rewrite track_face_moves, set_angle_eq; [reflexivity | assumption |].
    intro Hc. pose proof (Z.div_lt_upper_bound frame_width 2 0). lia.
  - apply track_face_moves; [assumption |].
    intro Hc. pose proof (Z.div_lt_upper_bound frame_width 2 0). lia.
Qed.

(** The three cases of a non-positive width on the default controller: a
    face 10 pixels off the centre of a frame of width 0 is ignored, one 100
    pixels off raises, and a frame of width -640 moves the servo. *)
Lemma track_face_nonpositive_width_witness :
  let s := ServoController_default false in
  track_face 10 240 0 480 s = Returned tt s []
  /\ track_face 100 240 0 480 s = Raised ZeroDivisionError s []
  /\ raised (track_face 320 240 (-640) 480 s) = None.
Proof.
  intro s. split; [| split].
  - apply (track_face_nonpositive_width 10 240 0 480 s); [lia | now vm_compute].
  - apply (track_face_nonpositive_width 100 240 0 480 s);
      [lia | now vm_compute | reflexivity].
  - apply (track_face_nonpositive_width 320 240 (-640) 480 s);
      [lia | now vm_compute | lia].
Defined.

(** C3 as worded fails: with width -640 no error is signalled and the stored
    angle moves from 90 to 90.6; with width 0 the error is the division by
    zero itself. *)
Lemma track_face_accepts_negative_width :
  let s := ServoController_default false in
  (raised (track_face 320 240 (-640) 480 s) = None
   /\ current_angle s == 90
   /\ current_angle (final (track_face 320 240 (-640) 480 s)) == 90.6)
  /\ raised (track_face 100 240 0 480 s) = Some ZeroDivisionError.
Proof.
  cbv zeta. repeat split; now vm_compute.
Qed.

(** ** What every call preserves *)

Lemma with_current_angle_same (s : ServoController) :
  with_current_angle s (current_angle s) = s.
Proof. destruct s; reflexivity. Qed.

Lemma perform_final (c : command) (s : ServoController) :
  exists a, final (perform c s) = with_current_angle s a.
Proof.
  destruct c as [angle | | face_x face_y frame_width frame_height]; cbn [perform].
  - rewrite set_angle_eq. eexists; reflexivity.
  - rewrite center_servo_eq, set_angle_eq. eexists; reflexivity.
  - destruct (track_face_cases face_x frame_width s) as [H | [[H Hc] | [H Hc]]].
    + rewrite (track_face_dead_zone _ face_y _ frame_height _ H).
      exists (current_angle s). symmetry. apply with_current_angle_same.
    + rewrite (track_face_zero_division _ face_y _ frame_height _ H Hc).
      exists (current_angle s). symmetry. apply with_current_angle_same.
    + rewrite (track_face_moves _ face_y _ frame_height _ H Hc), set_angle_eq.
      eexists; reflexivity.
Qed.

Lemma perform_configuration (c : command) (s : ServoController) :
  configuration (final (perform c s)) = configuration s.
Proof.
  destruct (perform_final c s) as [a Ha]. rewrite Ha. reflexivity.
Qed.


Lemma reachable_configuration (s0 s : ServoController) :
  reachable s0 s -> configuration s = configuration s0.
Proof.
  induction 1 as [| s c _ IH].
  - reflexivity.
  - rewrite perform_configuration. exact IH.
Qed.

Lemma built_configuration (pin : Z) (mn mx c : Q) (gpio : bool)
  (s : ServoController) :
  configuration s = configuration (fst (ServoController_init pin mn mx c gpio)) ->
  min_angle s = mn /\ max_angle s = mx /\ smoothing_factor s = 0.3
  /\ dead_zone s = 20 /\ max_speed s = 2.
Proof.
  unfold configuration. cbn. intro H. injection H as _ Hmn Hmx _ Hsf Hdz Hms _.
  repeat split; assumption.
Qed.

(** ** The dead zone *)

Lemma spec_offset_even (face_x frame_width : Z) :
  Z.even frame_width = true ->
  inject_Z face_x - inject_Z frame_width / 2
  == inject_Z (face_x - frame_width / 2).
Proof.
  intro He. unfold Z.sub at 1.
  rewrite inject_Z_plus, inject_Z_opp, (inject_Z_half_even _ He). ring.
Qed.

Lemma spec_offset_odd (face_x frame_width : Z) :
  Z.odd frame_width = true ->
  inject_Z (face_x - frame_width / 2)
  == inject_Z face_x - inject_Z frame_width / 2 + 0.5.
Proof.
  intro Ho. apply Z.odd_spec in Ho. destruct Ho as [k Hk]. subst frame_width.
  assert (Hh : ((2 * k + 1) / 2 = k)%Z).
  { rewrite Z.mul_comm, Z.div_add_l by discriminate.
    change (1 / 2)%Z with 0%Z. lia. }
  rewrite Hh. unfold Z.sub.
  rewrite !inject_Z_plus, inject_Z_opp, inject_Z_mult.
  change (inject_Z 2) with 2. change (inject_Z 1) with 1. field.
Qed.

(** C6, as the code has it.  The offset is measured from the floored centre
    [frame_width // 2].  When it is smaller in size than [dead_zone],
    [track_face] returns with the controller exactly as it was and without
    any output: no PWM write, no print.  For an even width this offset is the
    specification's [target_center_x - frame_width / 2]; for an odd width it
    is that offset plus one half.  Hence, for a controller in any state
    reachable after construction, any number of ticks with the face on the
    centre ([frame_width = 2 * face_x]) leaves it unchanged. *)
Theorem track_face_dead_zone_stable :
  (forall (face_x face_y frame_width frame_height : Z) (s : ServoController),
      inject_Z (Z.abs (face_x - frame_width / 2)) < dead_zone s ->
      track_face face_x face_y frame_width frame_height s = Returned tt s [])
  /\ (forall (face_x face_y frame_width frame_height : Z) (s : ServoController),
        Z.even frame_width = true ->
        Qabs (inject_Z face_x - inject_Z frame_width / 2) < dead_zone s ->
        track_face face_x face_y frame_width frame_height s = Returned tt s [])
  /\ (forall face_x frame_width : Z,
        Z.odd frame_width = true ->
        inject_Z (face_x - frame_width / 2)
        == inject_Z face_x - inject_Z frame_width / 2 + 0.5)
  /\ (forall (pin : Z) (mn mx c : Q) (gpio : bool) (s : ServoController),
        reachable (fst (ServoController_init pin mn mx c gpio)) s ->
        forall (n : nat) (face_x face_y frame_height : Z),
          repeat_call n (track_face face_x face_y (2 * face_x) frame_height) s
          = Returned tt s []).
Proof.
  split; [| split; [| split]].
  - intros. apply track_face_dead_zone. assumption.
  - intros face_x face_y frame_width frame_height s He H.
    apply track_face_dead_zone.
    rewrite (spec_offset_even _ _ He) in H. exact H.
  - apply spec_offset_odd.
  - intros pin0 mn mx c gpio s Hs n face_x face_y frame_height.
    apply reachable_configuration in Hs.
    assert (Hdz : dead_zone s = 20).
    { unfold configuration in Hs. cbn in Hs. congruence. }
    assert (Hstep : track_face face_x face_y (2 * face_x) frame_height s
                    = Returned tt s []).
    { apply track_face_dead_zone.
      rewrite Z.mul_comm, Z.div_mul, Z.sub_diag, Hdz by discriminate.
      reflexivity. }
    induction n as [| n IH]; cbn [repeat_call].
    + reflexivity.
    + unfold bind. rewrite Hstep, IH. reflexivity.
Qed.

(** The default controller after one tracking step: a face at 330 of a 640
    wide frame (offset 10 by either measure) is ignored, and so are five
    ticks with the face on the centre. *)
Lemma track_face_dead_zone_stable_witness :
  let s := final (perform (TrackFace 400 240 640 480) (ServoController_default false)) in
  track_face 330 240 640 480 s = Returned tt s []
  /\ track_face 310 240 640 480 s = Returned tt s []
  /\ inject_Z (340 - 641 / 2) == inject_Z 340 - inject_Z 641 / 2 + 0.5
  /\ repeat_call 5 (track_face 320 240 (2 * 320) 480) s = Returned tt s [].
Proof.
  intro s. split; [| split; [| split]].
  - apply (proj1 track_face_dead_zone_stable). now vm_compute.
  - apply (proj1 (proj2 track_face_dead_zone_stable)); now vm_compute.
  - apply (proj1 (proj2 (proj2 track_face_dead_zone_stable))). reflexivity.
  - apply (proj2 (proj2 (proj2 track_face_dead_zone_stable)) 18%Z 0 180 90 false s).
    apply reachable_call. apply reachable_built.
Defined.

(** C6 as worded fails for an odd width.  With the face at 340 of a 641 wide
    frame the specification's offset [340 - 641 / 2] is 19.5, inside the dead
    zone of 20, but the code measures 20 from [641 // 2 = 320]: the default
    controller moves from 90 to 89.4 and a duty cycle is written. *)
Lemma track_face_moves_inside_spec_dead_zone :
  let s := ServoController_default true in
  Qabs (inject_Z 340 - inject_Z 641 / 2) == 19.5
  /\ Qabs (inject_Z 340 - inject_Z 641 / 2) < dead_zone s
  /\ current_angle s == 90
  /\ current_angle (final (track_face 340 240 641 480 s)) == 89.4
  /\ existsb moves_servo (output (track_face 340 240 641 480 s)) = true.
Proof.
  cbv zeta. repeat split; now vm_compute.
Qed.

(** ** Independence from the vertical coordinates *)

(** C10.  [track_face] never reads [face_y] or [frame_height]: two calls that
    agree on [face_x], [frame_width] and the controller have the same
    outcome, that is the same exception or return, the same final controller
    (so the same [current_angle]) and the same sequence of actuator
    writes. *)
Theorem track_face_ignores_vertical
  (face_x frame_width face_y face_y' frame_height frame_height' : Z)
  (s : ServoController) :
  track_face face_x face_y frame_width frame_height s
  = track_face face_x face_y' frame_width frame_height' s.
Proof. reflexivity. Qed.

(** ** The duty cycle of a hardware write *)

Lemma duty_cycle_bounds (a : Q) :
  (0 <= duty_cycle a /\ duty_cycle a <= 100) <-> (-45 <= a /\ a <= 1755).
Proof.
  assert (H : duty_cycle a == a / 18 + 2.5) by (unfold duty_cycle; field).
  rewrite H. unfold Qdiv.
  change (/ 18) with (1 # 18).
  split; intros [H1 H2]; split; lra.
Qed.

(** What a hardware write does for any configured range.  [set_angle] writes
    the duty cycle [(a / 180) * 10 + 2.5] of the clamped angle [a], sleeps
    0.1 s, then writes duty cycle 0, and stores [a].  0 degrees gives 2.5 and
    180 degrees gives 12.5.  The written duty cycle is in [[0, 100]] exactly
    when the clamped angle is in [[-45, 1755]]; this is so for every command
    when the configured range satisfies
    [-45 <= min_angle <= max_angle <= 1755], and for a range within
    [[0, 180]], as the default one, it is in [[2.5, 12.5]]. *)
Theorem set_angle_hardware_duty_cycle (angle : Q) (s : ServoController) :
  hardware_available s = true ->
  let a := clamp (min_angle s) (max_angle s) angle in
  set_angle angle s =
  Returned tt (with_current_angle s a)
    [ChangeDutyCycle (duty_cycle a); Sleep 0.1; ChangeDutyCycle 0]
  /\ duty_cycle a == (a / 180) * 10 + 2.5
  /\ duty_cycle 0 == 2.5
  /\ duty_cycle 180 == 12.5
  /\ ((0 <= duty_cycle a /\ duty_cycle a <= 100) <-> (-45 <= a /\ a <= 1755))
  /\ (-45 <= min_angle s -> min_angle s <= max_angle s -> max_angle s <= 1755 ->
      0 <= duty_cycle a /\ duty_cycle a <= 100)
  /\ (0 <= min_angle s -> min_angle s <= max_angle s -> max_angle s <= 180 ->
      2.5 <= duty_cycle a /\ duty_cycle a <= 12.5).
Proof.
  intros Hhw a.
  split; [rewrite set_angle_eq, Hhw; reflexivity |].
  split; [reflexivity |].
  split; [reflexivity |].
  split; [reflexivity |].
  split; [apply duty_cycle_bounds |].
  split.
  - intros H1 H2 H3. apply duty_cycle_bounds.
    destruct (clamp_bounds (min_angle s) (max_angle s) angle H2) as [Ha Hb].
    fold a in Ha, Hb. split; lra.
  - intros H1 H2 H3.
    destruct (clamp_bounds (min_angle s) (max_angle s) angle H2) as [Ha Hb].
    fold a in Ha, Hb.
    assert (H : duty_cycle a == a * (1 # 18) + 2.5) by (unfold duty_cycle; field).
    rewrite H. split; lra.
Qed.

(** The default controller with hardware, commanded to 200 degrees: the angle
    is clamped to 180 and the duty cycle written is 12.5. *)
Lemma set_angle_hardware_duty_cycle_witness :
  let s := ServoController_default true in
  exists dc,
    output (set_angle 200 s) = [ChangeDutyCycle dc; Sleep 0.1; ChangeDutyCycle 0]
    /\ dc == 12.5 /\ 0 <= dc /\ dc <= 100.
Proof.
  intro s.
  destruct (set_angle_hardware_duty_cycle 200 s eq_refl)
    as (Hr & _ & _ & _ & _ & Hb & _).
  exists (duty_cycle (clamp (min_angle s) (max_angle s) 200)).
  rewrite Hr. split; [reflexivity |]. split; [now vm_compute |].
  apply Hb; now vm_compute.
Defined.

(** C9.  The conversion commented [# Convert angle to duty cycle (0-100)]
    leaves that interval for a range that reaches below -45 degrees, and the
    constructor accepts such a range: a controller built with hardware for
    [-90, 90] and commanded to -90 writes the duty cycle -2.5, holds 0.1 s
    and writes 0. *)
Lemma set_angle_negative_duty_cycle :
  let s := fst (ServoController_init 18 (-90) 90 0 true) in
  hardware_available s = true
  /\ output (set_angle (-90) s)
     = [ChangeDutyCycle (duty_cycle (-90)); Sleep 0.1; ChangeDutyCycle 0]
  /\ duty_cycle (-90) == -2.5
  /\ ~ (0 <= duty_cycle (-90)).
Proof.
  cbv zeta. split; [reflexivity |]. split; [reflexivity |].
  split; now vm_compute.
Qed.

(** ** The range invariant *)

Lemma set_angle_in_range (angle : Q) (s : ServoController) :
  min_angle s <= max_angle s -> in_range (final (set_angle angle s)).
Proof.
  intro H. rewrite set_angle_eq. unfold in_range. cbn.
  apply clamp_bounds. exact H.
Qed.

Lemma track_face_in_range (face_x face_y frame_width frame_height : Z)
  (s : ServoController) :
  min_angle s <= max_angle s ->
  final (track_face face_x face_y frame_width frame_height s) = s
  \/ in_range (final (track_face face_x face_y frame_width frame_height s)).
Proof.
  intro Hmm.
  destruct (track_face_cases face_x frame_width s) as [H | [[H Hc] | [H Hc]]].
  - left. rewrite (track_face_dead_zone _ face_y _ frame_height _ H). reflexivity.
  - left. rewrite (track_face_zero_division _ face_y _ frame_height _ H Hc).
    reflexivity.
  - right. rewrite (track_face_moves _ face_y _ frame_height _ H Hc).
    apply set_angle_in_range. exact Hmm.
Qed.

Lemma perform_in_range (c : command) (s : ServoController) :
  min_angle s <= max_angle s -> in_range s -> in_range (final (perform c s)).
Proof.
  intros Hmm Hs.
  destruct c as [angle | | face_x face_y frame_width frame_height]; cbn [perform].
  - apply set_angle_in_range. exact Hmm.
  - rewrite center_servo_eq. apply set_angle_in_range. exact Hmm.
  - destruct (track_face_in_range face_x face_y frame_width frame_height s Hmm)
      as [E | E]; [rewrite E; exact Hs | exact E].
Qed.

(** C2, as the code has it.  The constructor stores [center_angle] unchecked,
    so the invariant needs [min_angle <= center_angle <= max_angle]: for a
    controller built with such arguments, every state reachable through
    [set_angle], [center_servo] and [track_face] (returning or raising) has
    [min_angle <= current_angle <= max_angle], which is therefore the range of
    the angle read back after a tracking step.  Whatever the state before,
    when [min_angle <= max_angle] the invariant holds after [set_angle] and
    [center_servo], and after [track_face] unless it left the controller
    untouched. *)
Theorem current_angle_in_range :
  (forall (pin : Z) (mn mx c : Q) (gpio : bool) (s : ServoController),
      mn <= c -> c <= mx ->
      reachable (fst (ServoController_init pin mn mx c gpio)) s ->
      min_angle s == mn /\ max_angle s == mx
      /\ min_angle s <= current_angle s /\ current_angle s <= max_angle s)
  /\ (forall (s : ServoController), min_angle s <= max_angle s ->
        (forall angle, in_range (final (set_angle angle s)))
        /\ in_range (final (center_servo s))
        /\ (forall face_x face_y frame_width frame_height,
              final (track_face face_x face_y frame_width frame_height s) = s
              \/ in_range
                   (final (track_face face_x face_y frame_width frame_height s)))).
Proof.
  split.
  - intros pin0 mn mx c gpio s H1 H2 Hs.
    assert (Hcfg := reachable_configuration _ _ Hs).
    unfold configuration in Hcfg. cbn in Hcfg.
    assert (Hmn : min_angle s = mn) by congruence.
    assert (Hmx : max_angle s = mx) by congruence.
    split; [rewrite Hmn; reflexivity |]. split; [rewrite Hmx; reflexivity |].
    change (in_range s).
    clear Hcfg. induction Hs as [| s c0 Hs IH].
    + unfold in_range. cbn. split; assumption.
    + assert (Hcfg := reachable_configuration _ _ Hs).
      unfold configuration in Hcfg. cbn in Hcfg.
      assert (Hmn' : min_angle s = mn) by congruence.
      assert (Hmx' : max_angle s = mx) by congruence.
      apply perform_in_range.
      * rewrite Hmn', Hmx'. apply Qle_trans with c; assumption.
      * apply IH; assumption.
  - intros s Hmm. split; [| split].
    + intro angle. apply set_angle_in_range. exact Hmm.
    + rewrite center_servo_eq. apply set_angle_in_range. exact Hmm.
    + intros. apply track_face_in_range. exact Hmm.
Qed.

(** The default controller after a manual command, a tracking step and a
    centring: its angle is within [[0, 180]]. *)
Lemma current_angle_in_range_witness :
  let s := perform_all [SetAngle 250; TrackFace 400 240 640 480; CenterServo]
             (ServoController_default true) in
  0 <= current_angle s /\ current_angle s <= 180.
Proof.
  intro s.
  assert (Hs : reachable (fst (ServoController_init 18 0 180 90 true)) s).
  { unfold s. cbn [perform_all].
    repeat apply reachable_call. apply reachable_built. }
  destruct (proj1 current_angle_in_range 18%Z 0 180 90 true s) as (Hmn & Hmx & Hlo & Hhi).
  - now vm_compute.
  - now vm_compute.
  - exact Hs.
  - rewrite <- Hmn, <- Hmx. split; assumption.
Defined.

(** C2 as worded fails from construction: a controller built with
    [center_angle = 200] and the default range starts at 200, above
    [max_angle = 180]; and with [min_angle = 180 > max_angle = 0] the clamp of
    [set_angle] stores 180, above [max_angle]. *)
Lemma current_angle_out_of_range :
  ~ in_range (fst (ServoController_init 18 0 180 200 false))
  /\ ~ in_range (final (set_angle 90 (fst (ServoController_init 18 180 0 90 false)))).
Proof.
  split; intros [H1 H2]; vm_compute in H2; apply H2; reflexivity.
Qed.

(** ** The size of a tracking step *)






(** ** The controller as the frame loop drives it *)

Lemma final_bind {St A B : Type} (m : M St A) (k : A -> M St B) (st : St) :
  final (bind m k st)
  = match m st with
    | Returned a st1 _ => final (k a st1)
    | Raised _ st1 _ => st1
    end.
Proof.
  unfold bind. destruct (m st) as [a st1 o1 | e st1 o1]; [| reflexivity].
  destruct (k a st1); reflexivity.
Qed.

Lemma loop_body_servo_controller (rd : option Frame) (t : FaceTrackerThread) :
  servo_controller (final (loop_body rd t))
  = match tick_command rd with
    | Some c => final (perform c (servo_controller t))
    | None => servo_controller t
    end.
Proof.
  unfold loop_body, tick_command.
  destruct rd as [frame |]; [| reflexivity].
  destruct (largest_face (detections frame)) as [[x y w h] |]; [| reflexivity].
  cbn [perform].
  unfold bind, on_servo_controller, zoom, get, emit.
  destruct (track_face (x + w / 2) (y + h / 2) (shape1 frame) (shape0 frame)
              (servo_controller t)); reflexivity.
Qed.


(** ** The size of a tracking step in rounded arithmetic *)











(** [rnd64] on familiar values: 0.1 and 0.3 become the doubles nearest to
    them, doubles are kept, and rounding twice is rounding once. *)
Lemma rnd64_examples :
  rnd64 0.1 == 3602879701896397 # 36028797018963968
  /\ rnd64 0.3 == 5404319552844595 # 18014398509481984
  /\ rnd64 90 == 90
  /\ rnd64 (-2.5) == -2.5
  /\ rnd64 (rnd64 0.3) == rnd64 0.3
  /\ rnd64 (1 # 3) == 6004799503160661 # 18014398509481984.
Proof.
  repeat split; now vm_compute.
Qed.





(** ** Target selection *)

(** The scan of [max] keeps, at every point, a best item that is strictly
    above everything before it and at least as large as everything skipped
    since. *)
Lemma max_from_first_maximum {A : Type} (key : A -> Z) (rest : list A) :
  forall (best : A) (pre mid : list A),
    (forall x, In x pre -> (key x < key best)%Z) ->
    (forall x, In x mid -> (key x <= key best)%Z) ->
    exists before after,
      pre ++ best :: mid ++ rest = before ++ max_from key best rest :: after
      /\ (forall x, In x before -> (key x < key (max_from key best rest))%Z)
      /\ (forall x, In x after -> (key x <= key (max_from key best rest))%Z).
Proof.
  induction rest as [| item rest IH]; intros best pre mid Hpre Hmid; cbn [max_from].
  - exists pre, mid. rewrite app_nil_r. repeat split; assumption.
  - destruct (key best <? key item)%Z eqn:E.
    + apply Z.ltb_lt in E.
      destruct (IH item (pre ++ best :: mid) []) as (before & after & Heq & Hb & Ha).
      * intros x Hx. apply in_app_or in Hx. destruct Hx as [Hx | [Hx | Hx]].
        -- specialize (Hpre x Hx). lia.
        -- subst x. exact E.
        -- specialize (Hmid x Hx). lia.
      * intros x [].
      * exists before, after. split; [| split; assumption].
        rewrite <- Heq. rewrite <- app_assoc. reflexivity.
    + apply Z.ltb_ge in E.
      destruct (IH best pre (mid ++ [item])) as (before & after & Heq & Hb & Ha).
      * exact Hpre.
      * intros x Hx. apply in_app_or in Hx. destruct Hx as [Hx | [Hx | []]].
        -- apply Hmid. exact Hx.
        -- subst x. exact E.
      * exists before, after. split; [| split; assumption].
        rewrite <- Heq. rewrite <- app_assoc. reflexivity.
Qed.

Lemma area_exact (b : BoundingBox) :
  int32_product b -> area b = (box_w b * box_h b)%Z.
Proof.
  unfold int32_product, area, wrap32. intro H.
  rewrite Z.mod_small by lia. lia.
Qed.

(** Inside a frame of fewer than [2 ^ 31] pixels the product does not
    wrap. *)
Lemma in_frame_int32_product (b : BoundingBox) (width height : Z) :
  (0 <= box_w b <= width)%Z -> (0 <= box_h b <= height)%Z ->
  (width * height < 2 ^ 31)%Z ->
  int32_product b.
Proof.
  unfold int32_product. intros Hw Hh Hpix. split; nia.
Qed.

(** In terms of the key: [largest_face] selects [b] exactly when [b] splits
    the sequence into boxes of strictly smaller key before it and boxes of
    key not larger after it. *)
Lemma largest_face_by_key (faces : list BoundingBox) (b : BoundingBox) :
  largest_face faces = Some b <->
  exists before after,
    faces = before ++ b :: after
    /\ (forall b', In b' before -> (area b' < area b)%Z)
    /\ (forall b', In b' after -> (area b' <= area b)%Z).
Proof.
  assert (Hsel : forall faces b,
             largest_face faces = Some b ->
             exists before after,
               faces = before ++ b :: after
               /\ (forall b', In b' before -> (area b' < area b)%Z)
               /\ (forall b', In b' after -> (area b' <= area b)%Z)).
  { clear faces b. intros faces b H.
    destruct faces as [| first rest]; [discriminate |].
    cbn [largest_face] in H. injection H as H. subst b.
    destruct (max_from_first_maximum area rest first [] [])
      as (before & after & Heq & Hb & Ha).
    - intros x [].
    - intros x [].
    - exists before, after. cbn [app] in Heq. repeat split; assumption. }
  split; [apply Hsel |].
  intros (before & after & Heq & Hb & Ha).
  destruct (largest_face faces) as [b0 |] eqn:E.
  - destruct (Hsel faces b0 E) as (before0 & after0 & Heq0 & Hb0 & Ha0).
    f_equal. rewrite Heq in Heq0. clear E Heq Hsel.
    revert before0 Heq0 Hb0.
    induction before as [| x before IH]; intros before0 Heq0 Hb0.
    + destruct before0 as [| y before0].
      * cbn in Heq0. congruence.
      * cbn in Heq0. injection Heq0 as Hy Hrest. subst y.
        assert (In b0 after) by (rewrite Hrest; apply in_elt).
        specialize (Ha b0 H). specialize (Hb0 b (or_introl eq_refl)). lia.
    + destruct before0 as [| y before0].
      * cbn in Heq0. injection Heq0 as Hx Hrest. subst x.
        assert (In b after0) by (rewrite <- Hrest; apply in_elt).
        specialize (Ha0 b H). specialize (Hb b0 (or_introl eq_refl)). lia.
      * cbn in Heq0. injection Heq0 as Hx Hrest.
        apply (IH (fun b' Hb' => Hb b' (or_intror Hb')) before0 Hrest).
        intros b' Hb'. apply Hb0. right. exact Hb'.
  - destruct faces; [| discriminate].
    destruct before; discriminate.
Qed.

(** C8.  [largest_face] gives no target exactly for the empty sequence.
    For a sequence of boxes whose products [w * h] are [int32] values (every
    box inside a frame of fewer than [2 ^ 31] pixels), it gives [b] exactly
    when [b] is the first box of maximal area [w * h]: every box before it has
    a strictly smaller product [w * h] and every box after it a product not
    larger.  The sequence itself is only read (the function is pure).  Of
    (0,0,30,30) and (10,10,50,50) it selects the second; a wider box of
    smaller area does not win, and of equal areas the first wins. *)
Theorem largest_face_first_maximum :
  (forall faces : list BoundingBox, largest_face faces = None <-> faces = [])
  /\ (forall (faces : list BoundingBox) (b : BoundingBox),
        Forall int32_product faces ->
        (largest_face faces = Some b <->
         exists before after,
           faces = before ++ b :: after
           /\ (forall b', In b' before ->
                          (box_w b' * box_h b' < box_w b * box_h b)%Z)
           /\ (forall b', In b' after ->
                          (box_w b' * box_h b' <= box_w b * box_h b)%Z)))
  /\ largest_face [Box 0 0 30 30; Box 10 10 50 50] = Some (Box 10 10 50 50)
  /\ largest_face [Box 0 0 60 10; Box 10 10 50 50] = Some (Box 10 10 50 50)
  /\ largest_face [Box 0 0 10 60; Box 10 10 50 50] = Some (Box 10 10 50 50)
  /\ largest_face [Box 0 0 20 80; Box 5 5 40 40; Box 9 9 80 20]
     = Some (Box 0 0 20 80).
Proof.
  split; [| split; [| repeat split; reflexivity]].
  - intro faces. destruct faces; cbn [largest_face]; split; intro H;
      try reflexivity; discriminate.
  - intros faces b Hfit.
    assert (Hin : forall b', In b' faces -> area b' = (box_w b' * box_h b')%Z).
    { intros b' Hb'. apply area_exact.
      apply (proj1 (Forall_forall int32_product faces) Hfit b' Hb'). }
    rewrite largest_face_by_key. split.
    + intros (before & after & Heq & Hb & Ha).
      exists before, after. split; [exact Heq |].
      assert (Hbin : In b faces) by (rewrite Heq; apply in_elt).
      split; intros b' Hb'.
      * rewrite <- (Hin b'), <- (Hin b Hbin); [apply Hb; exact Hb' |].
        rewrite Heq. apply in_or_app. left. exact Hb'.
      * rewrite <- (Hin b'), <- (Hin b Hbin); [apply Ha; exact Hb' |].
        rewrite Heq. apply in_or_app. right. right. exact Hb'.
    + intros (before & after & Heq & Hb & Ha).
      exists before, after. split; [exact Heq |].
      assert (Hbin : In b faces) by (rewrite Heq; apply in_elt).
      split; intros b' Hb'.
      * rewrite (Hin b'), (Hin b Hbin); [apply Hb; exact Hb' |].
        rewrite Heq. apply in_or_app. left. exact Hb'.
      * rewrite (Hin b'), (Hin b Hbin); [apply Ha; exact Hb' |].
        rewrite Heq. apply in_or_app. right. right. exact Hb'.
Qed.

(** Three boxes of which the first and the last tie at 1600 pixels, the
    last being the widest: the selected box is the first, and the boxes after
    it are not larger in area. *)
Lemma largest_face_first_maximum_witness :
  exists before after,
    [Box 0 0 20 80; Box 5 5 30 40; Box 9 9 80 20]
    = before ++ Box 0 0 20 80 :: after
    /\ (forall b', In b' before -> (box_w b' * box_h b' < 20 * 80)%Z)
    /\ (forall b', In b' after -> (box_w b' * box_h b' <= 20 * 80)%Z).
Proof.
  assert (Hfit : Forall int32_product
                   [Box 0 0 20 80; Box 5 5 30 40; Box 9 9 80 20])
    by (repeat constructor; unfold int32_product; cbn; lia).
  apply (proj1 (proj1 (proj2 largest_face_first_maximum)
                  [Box 0 0 20 80; Box 5 5 30 40; Box 9 9 80 20]
                  (Box 0 0 20 80) Hfit)).
  reflexivity.
Defined.

(** ** What a pass of the loop publishes *)

(** C5, as the code has it.  A pass of the loop whose frame has at least one
    detected face and whose tracking step returns publishes the stored angle,
    after the step's own servo output and before the frame, also when the step
    was a dead-zone no-op.  A pass without a detected face publishes the frame
    only, and a pass whose read failed publishes nothing; neither touches the
    controller. *)
Theorem loop_body_publishes_when_face_found :
  (forall (frame : Frame) (t : FaceTrackerThread) (c : command),
      tick_command (Some frame) = Some c ->
      raised (perform c (servo_controller t)) = None ->
      let s' := final (perform c (servo_controller t)) in
      loop_body (Some frame) t =
      Returned tt (mkThread (running t) (cap t) s')
        (output (perform c (servo_controller t))
         ++ [ServoAngleUpdate (current_angle s');
             FrameReady (detections frame); MSleep 30]))
  /\ (forall (frame : Frame) (t : FaceTrackerThread),
        detections frame = [] ->
        loop_body (Some frame) t = Returned tt t [FrameReady []; MSleep 30])
  /\ (forall t : FaceTrackerThread, loop_body None t = Returned tt t [MSleep 30]).
Proof.
  split; [| split].
  - intros frame t c Hc Hr s'. subst s'.
    unfold tick_command in Hc. unfold loop_body.
    destruct (largest_face (detections frame)) as [[x y w h] |] eqn:E;
      [| discriminate].
    injection Hc as Hc. subst c. cbn [perform] in *.
    assert (Hne : (0 <? length (detections frame))%nat = true).
    { destruct (detections frame); [discriminate | reflexivity]. }
    rewrite Hne.
    unfold bind, on_servo_controller, zoom, get, emit.
    destruct (track_face (x + w / 2) (y + h / 2) (shape1 frame) (shape0 frame)
                (servo_controller t)) as [[] s1 o1 | e s1 o1];
      [| discriminate].
    cbn. rewrite <- !app_assoc. reflexivity.
  - intros frame t H. unfold loop_body. rewrite H. destruct t; reflexivity.
  - intro t. destruct t; reflexivity.
Qed.

(** A pass with one face at 400 of a 640 wide frame, on a thread holding the
    default controller: the step stores 89.4 and that angle is published. *)
Lemma loop_body_publishes_when_face_found_witness :
  let t := mkThread true (Some true) (ServoController_default false) in
  exists a,
    output (loop_body (Some (mkFrame 640 480 [Box 375 215 50 50])) t)
    = [PrintSimulation a; ServoAngleUpdate a;
       FrameReady [Box 375 215 50 50]; MSleep 30]
    /\ a == 89.4.
Proof.
  intro t.
  rewrite (proj1 loop_body_publishes_when_face_found
             (mkFrame 640 480 [Box 375 215 50 50]) t
             (TrackFace 400 240 640 480) eq_refl eq_refl).
  eexists. split; [reflexivity | now vm_compute].
Defined.

(** C5 as worded fails on a pass without a face: the frame is published, the
    angle is not. *)
Lemma loop_body_silent_without_face :
  let t := mkThread true (Some true) (ServoController_default false) in
  output (loop_body (Some (mkFrame 640 480 [])) t) = [FrameReady []; MSleep 30]
  /\ existsb publishes_angle
       (output (loop_body (Some (mkFrame 640 480 [])) t)) = false.
Proof. split; reflexivity. Qed.

(** ** Stopping *)

Lemma output_bind {St A B : Type} (m : M St A) (k : A -> M St B) (st : St) :
  output (bind m k st)
  = output (m st)
    ++ match m st with
       | Returned a st1 _ => output (k a st1)
       | Raised _ _ _ => []
       end.
Proof.
  unfold bind. destruct (m st) as [a st1 o1 | e st1 o1].
  - destruct (k a st1); reflexivity.
  - cbn. rewrite app_nil_r. reflexivity.
Qed.

Lemma never_releases_bind {St A B : Type} (m : M St A) (k : A -> M St B) :
  never_releases m -> (forall a, never_releases (k a)) -> never_releases (bind m k).
Proof.
  intros Hm Hk st. rewrite output_bind, existsb_app, Hm.
  destruct (m st); [apply Hk | reflexivity].
Qed.

Lemma never_releases_ret {St A : Type} (a : A) : never_releases (@ret St A a).
Proof. intro st. reflexivity. Qed.

Lemma never_releases_get {St : Type} : never_releases (@get St).
Proof. intro st. reflexivity. Qed.

Lemma never_releases_put {St : Type} (st' : St) : never_releases (put st').
Proof. intro st. reflexivity. Qed.

Lemma never_releases_emit {St : Type} (e : event) :
  releases_actuator e = false -> never_releases (@emit St e).
Proof. intros H st. cbn. rewrite H. reflexivity. Qed.

Lemma never_releases_zoom {St Sub A : Type} (proj : St -> Sub)
  (upd : Sub -> St -> St) (m : M Sub A) :
  never_releases m -> never_releases (zoom proj upd m).
Proof.
  intros Hm st. specialize (Hm (proj st)). unfold zoom.
  destruct (m (proj st)); exact Hm.
Qed.

Create HintDb release discriminated.
#[local] Hint Resolve never_releases_bind never_releases_ret never_releases_get
  never_releases_put never_releases_zoom : release.
#[local] Hint Extern 1 (never_releases (emit _)) =>
  apply never_releases_emit; reflexivity : release.
#[local] Hint Extern 4 (never_releases (if ?b then _ else _)) => destruct b : release.
#[local] Hint Extern 4 (never_releases (match ?x with _ => _ end)) =>
  destruct x : release.

Lemma set_angle_never_releases (angle : Q) : never_releases (set_angle angle).
Proof. unfold set_angle. auto 10 with release. Qed.

#[local] Hint Resolve set_angle_never_releases : release.

Lemma track_face_never_releases (face_x face_y frame_width frame_height : Z) :
  never_releases (track_face face_x face_y frame_width frame_height).
Proof.
  unfold track_face. apply never_releases_bind; [auto with release |].
  intro s. cbv zeta.
  destruct (Qltb _ _); [auto with release |].
  destruct (_ =? _)%Z; [intro st; reflexivity | auto with release].
Qed.

Lemma center_servo_never_releases : never_releases center_servo.
Proof. unfold center_servo. auto with release. Qed.

#[local] Hint Resolve track_face_never_releases center_servo_never_releases : release.

Lemma loop_body_never_releases (rd : option Frame) : never_releases (loop_body rd).
Proof.
  unfold loop_body, on_servo_controller.
  destruct rd as [frame |]; [| auto with release].
  destruct (largest_face (detections frame)) as [[x y w h] |];
    auto 10 with release.
Qed.

#[local] Hint Resolve loop_body_never_releases : release.

Lemma while_running_never_releases (reads : list (option Frame)) :
  never_releases (while_running reads).
Proof.
  induction reads as [| rd later IH]; cbn [while_running]; auto with release.
Qed.

#[local] Hint Resolve while_running_never_releases : release.

Lemma run_never_releases (opened : bool) (reads : list (option Frame)) :
  never_releases (run opened reads).
Proof.
  unfold run, set_cap, set_running, on_servo_controller.
  destruct opened; cbn [negb]; auto 10 with release.
Qed.

Lemma stop_eq (t : FaceTrackerThread) :
  stop t =
  Returned tt
    (mkThread false
       (match cap t with Some _ => Some false | None => None end)
       (servo_controller t))
    (match cap t with
     | Some _ => [CapRelease; ThreadWait]
     | None => [ThreadWait]
     end).
Proof.
  unfold stop, set_running, set_cap, bind, get, put, emit.
  destruct t as [r [c |] sc]; reflexivity.
Qed.

Lemma stop_tracking_eq (a : FaceTrackerServoApp) :
  stop_tracking a =
  Returned tt (mkApp (app_servo a) None false)
    (match tracker_thread a with
     | Some (_, Some _) => [CapRelease; ThreadWait; UiStopped; TimerStop]
     | Some (_, None) => [ThreadWait; UiStopped; TimerStop]
     | None => [UiStopped; TimerStop]
     end).
Proof.
  destruct a as [sc [[r [c |]] |] tracking]; reflexivity.
Qed.

Lemma thread_runs_no_release (opened : bool) (reads : list (option Frame))
  (a : FaceTrackerServoApp) :
  existsb releases_actuator (snd (thread_runs opened reads a)) = false.
Proof.
  unfold thread_runs. destruct (tracker_thread a) as [rc |]; [| reflexivity].
  cbn [snd]. apply never_releases_zoom. apply run_never_releases.
Qed.

Lemma closeEvent_eq (a : FaceTrackerServoApp) :
  closeEvent a =
  Returned tt (mkApp (app_servo a) None false)
    (output (stop_tracking a)
     ++ (if hardware_available (app_servo a) then [ServoStop; GPIOCleanup] else [])
     ++ [EventAccept]).
Proof.
  destruct a as [[p mn mx c cur sf dz ms [|]] [[r [cp |]] |] tracking];
    reflexivity.
Qed.

(** C4, as the code has it.  [stop()] clears [running], releases the camera
    if there is one and waits for the thread; [stop_tracking()] adds the
    updates of the window.  Both return normally, leave the controller, and so
    [current_angle], exactly as it was, and neither write to the servo nor
    free the actuator.  After a whole session the stored angle is therefore
    the one the thread's loop left, and nothing in the session has freed the
    actuator.  The actuator is freed by [cleanup()], which [closeEvent] calls
    after [stop_tracking()], again without moving the servo. *)
Theorem stop_leaves_controller :
  (forall t : FaceTrackerThread,
      raised (stop t) = None
      /\ running (final (stop t)) = false
      /\ servo_controller (final (stop t)) = servo_controller t
      /\ existsb releases_actuator (output (stop t)) = false
      /\ existsb moves_servo (output (stop t)) = false)
  /\ (forall a : FaceTrackerServoApp,
        raised (stop_tracking a) = None
        /\ tracker_thread (final (stop_tracking a)) = None
        /\ app_servo (final (stop_tracking a)) = app_servo a
        /\ existsb releases_actuator (output (stop_tracking a)) = false
        /\ existsb moves_servo (output (stop_tracking a)) = false)
  /\ (forall (gpio opened : bool) (reads : list (option Frame)),
        app_servo (fst (tracking_session gpio opened reads))
        = app_servo
            (fst (thread_runs opened reads
                    (final (start_tracking (FaceTrackerServoApp_init gpio)))))
        /\ existsb releases_actuator (snd (tracking_session gpio opened reads))
           = false)
  /\ (forall a : FaceTrackerServoApp,
        hardware_available (app_servo a) = true ->
        raised (closeEvent a) = None
        /\ app_servo (final (closeEvent a)) = app_servo a
        /\ output (closeEvent a)
           = output (stop_tracking a) ++ [ServoStop; GPIOCleanup; EventAccept]).
Proof.
  split; [| split; [| split]].
  - intro t. rewrite stop_eq. cbn [raised final output running servo_controller].
    destruct (cap t); repeat split; reflexivity.
  - intro a. rewrite stop_tracking_eq.
    cbn [raised final output tracker_thread app_servo].
    destruct (tracker_thread a) as [[r [c |]] |]; repeat split; reflexivity.
  - intros gpio opened reads. unfold tracking_session. cbn [fst snd]. split.
    + rewrite stop_tracking_eq. reflexivity.
    + rewrite !existsb_app, thread_runs_no_release, stop_tracking_eq.
      cbn [output].
      destruct (tracker_thread _) as [[r [c |]] |]; reflexivity.
  - intros a Hhw. rewrite closeEvent_eq, Hhw. repeat split.
Qed.

(** A window with a hardware servo left at 89.4 by a session: closing it
    frees the actuator and leaves the angle at 89.4. *)
Lemma stop_leaves_controller_witness :
  let a := fst (tracking_session true true
                  [Some (mkFrame 640 480 [Box 375 215 50 50])]) in
  current_angle (app_servo (final (closeEvent a))) == 89.4
  /\ output (closeEvent a)
     = [UiStopped; TimerStop; ServoStop; GPIOCleanup; EventAccept].
Proof.
  intro a.
  destruct (proj2 (proj2 (proj2 stop_leaves_controller)) a eq_refl)
    as (_ & Hs & Ho).
  split.
  - rewrite Hs. now vm_compute.
  - rewrite Ho. reflexivity.
Defined.

(** C4 as worded fails: after a session with one tracked face, [stop()]
    having completed and the thread being gone, the stored angle is 89.4 while
    [center_angle] is 90, and nothing has freed the actuator. *)
Lemma stop_does_not_center_or_release :
  let session := tracking_session true true
                   [Some (mkFrame 640 480 [Box 375 215 50 50])] in
  tracker_thread (fst session) = None
  /\ current_angle (app_servo (fst session)) == 89.4
  /\ center_angle (app_servo (fst session)) == 90
  /\ ~ current_angle (app_servo (fst session))
       == center_angle (app_servo (fst session))
  /\ existsb releases_actuator (snd session) = false.
Proof.
  cbv zeta. repeat split; now vm_compute.
Qed.

(** * Further properties of the code *)

(** ** Manual commands *)

(** X1.  With [min_angle <= max_angle], the angle read back after
    [set_angle(angle)] is the commanded one exactly when the command lies in
    [[min_angle, max_angle]]; otherwise it is the nearer bound. *)
Theorem set_angle_reads_back (angle : Q) (s : ServoController) :
  min_angle s <= max_angle s ->
  (current_angle (final (set_angle angle s)) == angle
   <-> (min_angle s <= angle /\ angle <= max_angle s))
  /\ (angle < min_angle s ->
      current_angle (final (set_angle angle s)) == min_angle s)
  /\ (max_angle s < angle ->
      current_angle (final (set_angle angle s)) == max_angle s).
Proof.
  intro Hmm. rewrite set_angle_eq. cbn [final]. unfold with_current_angle.
  cbn [current_angle]. split; [split |].
  - intro H. destruct (clamp_bounds (min_angle s) (max_angle s) angle Hmm) as [H1 H2].
    rewrite H in H1, H2. split; assumption.
  - intros [H1 H2]. apply clamp_inside; assumption.
  - split; intro H; split_comparisons; lra.
Qed.

(** The default controller: a command of 45 is read back as 45, one of -10
    as 0 and one of 200 as 180. *)
Lemma set_angle_reads_back_witness :
  let s := ServoController_default true in
  current_angle (final (set_angle 45 s)) == 45
  /\ current_angle (final (set_angle (-10) s)) == 0
  /\ current_angle (final (set_angle 200 s)) == 180.
Proof.
  intro s.
  assert (Hmm : min_angle s <= max_angle s) by (now vm_compute).
  split; [| split].
  - apply (proj1 (set_angle_reads_back 45 s Hmm)). split; now vm_compute.
  - apply (proj2 (set_angle_reads_back (-10) s Hmm)). now vm_compute.
  - apply (proj2 (set_angle_reads_back 200 s Hmm)). now vm_compute.
Defined.

(** X2.  [set_angle] overwrites: its whole outcome (the controller it
    leaves and what it writes) is the same after any sequence of earlier
    calls as on the controller those calls started from.  The last command
    wins, and repeating a command changes nothing more. *)
Theorem set_angle_forgets_history (angle : Q) (cs : list command)
  (s : ServoController) :
  set_angle angle (perform_all cs s) = set_angle angle s.
Proof.
  revert s. induction cs as [| c cs IH]; intro s; cbn [perform_all].
  - reflexivity.
  - rewrite IH. destruct (perform_final c s) as [a Ha]. rewrite Ha.
    rewrite !set_angle_eq. reflexivity.
Qed.

(** X3.  [set_angle] is monotone: of two commands, the larger never leaves
    a smaller stored angle nor writes a smaller duty cycle, whatever the
    configured range. *)
Theorem set_angle_monotone (a b : Q) (s : ServoController) :
  a <= b ->
  current_angle (final (set_angle a s)) <= current_angle (final (set_angle b s))
  /\ duty_cycle (current_angle (final (set_angle a s)))
     <= duty_cycle (current_angle (final (set_angle b s))).
Proof.
  intro Hab. rewrite !set_angle_eq. cbn [final]. unfold with_current_angle.
  cbn [current_angle].
  assert (H : clamp (min_angle s) (max_angle s) a
              <= clamp (min_angle s) (max_angle s) b)
    by (split_comparisons; lra).
  split; [exact H |].
  unfold duty_cycle, Qdiv. change (/ 180) with (1 # 180). lra.
Qed.

Lemma set_angle_monotone_witness :
  let s := ServoController_default true in
  current_angle (final (set_angle 30 s)) <= current_angle (final (set_angle 250 s)).
Proof.
  intro s. apply (set_angle_monotone 30 250 s). now vm_compute.
Defined.

(** ** Reasoning about whole methods *)

Section Maintains.

Context {St : Type}.
Variable I : St -> Prop.
Variable Out : list event -> Prop.
Hypothesis Out_nil : Out [].
Hypothesis Out_app : forall o1 o2, Out o1 -> Out o2 -> Out (o1 ++ o2).

Lemma maintains_ret {A : Type} (a : A) : maintains I Out (ret a).
Proof. intros st Hst. split; [exact Hst | exact Out_nil]. Qed.

Lemma maintains_get : maintains I Out get.
Proof. intros st Hst. split; [exact Hst | exact Out_nil]. Qed.

Lemma maintains_put (st' : St) : I st' -> maintains I Out (put st').
Proof. intros H st _. split; [exact H | exact Out_nil]. Qed.

Lemma maintains_emit (e : event) : Out [e] -> maintains I Out (emit e).
Proof. intros H st Hst. split; [exact Hst | exact H]. Qed.

Lemma maintains_bind {A B : Type} (m : M St A) (k : A -> M St B) :
  maintains I Out m -> (forall a, maintains I Out (k a)) ->
  maintains I Out (bind m k).
Proof.
  intros Hm Hk st Hst. destruct (Hm st Hst) as [Hi Ho].
  rewrite final_bind, output_bind.
  destruct (m st) as [a st1 o1 | e st1 o1]; cbn [final output] in *.
  - destruct (Hk a st1 Hi) as [Hi' Ho']. split; [exact Hi' |].
    apply Out_app; assumption.
  - split; [exact Hi |]. rewrite app_nil_r. exact Ho.
Qed.

End Maintains.

Lemma on_servo_controller_maintains {A : Type} (I : ServoController -> Prop)
  (Out : list event -> Prop) (m : M ServoController A) :
  maintains I Out m ->
  maintains (fun t => I (servo_controller t)) Out (on_servo_controller m).
Proof.
  intros Hm t Ht. destruct (Hm (servo_controller t) Ht) as [Hi Ho].
  unfold on_servo_controller, zoom.
  destruct (m (servo_controller t)); cbn in *; split; assumption.
Qed.

(** The loop and [run] maintain whatever the controller calls maintain,
    provided the angle notification, the frame and the pauses are allowed
    outputs. *)
Section ThreadMaintains.

Variable I : ServoController -> Prop.
Variable Out : list event -> Prop.
Hypothesis Out_nil : Out [].
Hypothesis Out_app : forall o1 o2, Out o1 -> Out o2 -> Out (o1 ++ o2).
Hypothesis Out_other : forall e,
    pwm_writes [e] = [] -> hardware_action e = false -> Out [e].
Hypothesis perform_ok : forall c, maintains I Out (perform c).

Let It (t : FaceTrackerThread) : Prop := I (servo_controller t).

Lemma loop_body_maintains (rd : option Frame) : maintains It Out (loop_body rd).
Proof.
  unfold loop_body.
  apply maintains_bind; [assumption | | intros _].
  - destruct rd as [frame |]; [| apply maintains_ret; assumption].
    apply maintains_bind; [assumption | | intros _].
    + destruct (largest_face (detections frame)) as [[x y w h] |];
        [| apply maintains_ret; assumption].
      apply maintains_bind; [assumption | | intros _].
      * apply on_servo_controller_maintains.
        apply (perform_ok (TrackFace (x + w / 2) (y + h / 2)
                             (shape1 frame) (shape0 frame))).
      * apply maintains_bind; [assumption | | intro t].
        -- apply maintains_get. assumption.
        -- apply maintains_emit. apply Out_other; reflexivity.
    + apply maintains_emit. apply Out_other; reflexivity.
  - apply maintains_emit. apply Out_other; reflexivity.
Qed.

Lemma while_running_maintains (reads : list (option Frame)) :
  maintains It Out (while_running reads).
Proof.
  induction reads as [| rd later IH]; cbn [while_running].
  - apply maintains_ret. assumption.
  - apply maintains_bind; [assumption | | intros _].
    + apply loop_body_maintains.
    + exact IH.
Qed.

Lemma run_maintains (opened : bool) (reads : list (option Frame)) :
  maintains It Out (run opened reads).
Proof.
  unfold run.
  apply maintains_bind; [assumption | | intros _].
  { apply maintains_emit. apply Out_other; reflexivity. }
  apply maintains_bind; [assumption | | intros _].
  { intros t Ht. split; [exact Ht | exact Out_nil]. }
  destruct opened; cbn [negb].
  - apply maintains_bind; [assumption | | intros _].
    { apply on_servo_controller_maintains. apply (perform_ok CenterServo). }
    apply maintains_bind; [assumption | | intros _].
    { intros t Ht. split; [exact Ht | exact Out_nil]. }
    apply while_running_maintains.
  - apply maintains_emit. apply Out_other; reflexivity.
Qed.

End ThreadMaintains.

(** ** What reaches the servo *)

Lemma perform_output (c : command) (s : ServoController) :
  output (perform c s) = []
  \/ exists a,
       output (perform c s)
       = if hardware_available s then
           [ChangeDutyCycle (duty_cycle a); Sleep 0.1; ChangeDutyCycle 0]
         else [PrintSimulation a].
Proof.
  destruct c as [angle | | face_x face_y frame_width frame_height]; cbn [perform].
  - right. rewrite set_angle_eq. eexists; reflexivity.
  - right. rewrite center_servo_eq, set_angle_eq. eexists; reflexivity.
  - destruct (track_face_cases face_x frame_width s) as [H | [[H Hc] | [H Hc]]].
    + left. rewrite (track_face_dead_zone _ face_y _ frame_height _ H). reflexivity.
    + left. rewrite (track_face_zero_division _ face_y _ frame_height _ H Hc).
      reflexivity.
    + right. rewrite (track_face_moves _ face_y _ frame_height _ H Hc), set_angle_eq.
      eexists; reflexivity.
Qed.

Lemma pwm_writes_app (o1 o2 : list event) :
  pwm_writes (o1 ++ o2) = pwm_writes o1 ++ pwm_writes o2.
Proof. apply flat_map_app. Qed.

Lemma pulsed_app (ws2 : list Q) :
  pulsed ws2 = true ->
  forall ws1, pulsed ws1 = true -> pulsed (ws1 ++ ws2) = true.
Proof.
  intro H2. fix IH 1. intros [| w [| w0 ws1]] H1.
  - exact H2.
  - discriminate.
  - cbn [pulsed app] in *. apply andb_true_iff in H1. destruct H1 as [Hz Hr].
    rewrite Hz. cbn [andb]. apply IH. exact Hr.
Qed.

Lemma pulsed_last :
  forall ws, pulsed ws = true -> last ws 0 == 0.
Proof.
  fix IH 1. intros [| w [| w0 ws]] H.
  - reflexivity.
  - discriminate.
  - cbn [pulsed] in H. apply andb_true_iff in H. destruct H as [Hz Hr].
    pose proof (IH ws Hr) as Hl.
    destruct ws as [| w1 ws'].
    + cbn. apply Qeq_bool_eq. exact Hz.
    + exact Hl.
Qed.

Lemma perform_pulsed (c : command) :
  maintains (fun _ : ServoController => True)
    (fun o => pulsed (pwm_writes o) = true) (perform c).
Proof.
  intros s _. split; [exact Logic.I |].
  destruct (perform_output c s) as [H | [a H]]; rewrite H.
  - reflexivity.
  - destruct (hardware_available s); reflexivity.
Qed.

(** X4.  The servo is never left driven.  The duty cycles written by any
    controller call, and by a whole [run] of the thread over any reads, come
    in pairs whose second member is 0; so the last duty cycle written, if
    there is one, is 0. *)
Theorem servo_signal_rests :
  (forall (c : command) (s : ServoController),
      pulsed (pwm_writes (output (perform c s))) = true)
  /\ (forall (opened : bool) (reads : list (option Frame))
             (t : FaceTrackerThread),
        pulsed (pwm_writes (output (run opened reads t))) = true
        /\ last (pwm_writes (output (run opened reads t))) 0 == 0).
Proof.
  split.
  - intros c s. apply (perform_pulsed c s Logic.I).
  - intros opened reads t.
    assert (H : pulsed (pwm_writes (output (run opened reads t))) = true).
    { apply (run_maintains (fun _ => True)
               (fun o => pulsed (pwm_writes o) = true)).
      - reflexivity.
      - intros o1 o2 H1 H2. rewrite pwm_writes_app. apply pulsed_app; assumption.
      - intros e He _. rewrite He. reflexivity.
      - apply perform_pulsed.
      - exact Logic.I. }
    split; [exact H | apply pulsed_last; exact H].
Qed.

Lemma perform_simulated (c : command) :
  maintains (fun s => hardware_available s = false)
    (fun o => existsb hardware_action o = false) (perform c).
Proof.
  intros s Hs. split.
  - pose proof (perform_configuration c s) as Hcfg.
    unfold configuration in Hcfg. injection Hcfg as _ _ _ _ _ _ _ Hhw.
    rewrite Hhw. exact Hs.
  - destruct (perform_output c s) as [H | [a H]]; rewrite H.
    + reflexivity.
    + rewrite Hs. reflexivity.
Qed.

(** X5.  Without [RPi.GPIO] nothing reaches the hardware: the constructor,
    a whole [run] of the thread over any reads, and closing the window
    produce no GPIO or PWM action and no settle pause, and the controller
    stays in simulation mode. *)
Theorem simulation_never_touches_hardware :
  (forall (pin : Z) (mn mx c : Q),
      hardware_available (fst (ServoController_init pin mn mx c false)) = false
      /\ existsb hardware_action (snd (ServoController_init pin mn mx c false))
         = false)
  /\ (forall (opened : bool) (reads : list (option Frame))
             (t : FaceTrackerThread),
        hardware_available (servo_controller t) = false ->
        existsb hardware_action (output (run opened reads t)) = false
        /\ hardware_available (servo_controller (final (run opened reads t)))
           = false)
  /\ (forall a : FaceTrackerServoApp,
        hardware_available (app_servo a) = false ->
        existsb hardware_action (output (closeEvent a)) = false).
Proof.
  split; [| split].
  - intros. split; reflexivity.
  - intros opened reads t Ht.
    destruct (run_maintains (fun s => hardware_available s = false)
                (fun o => existsb hardware_action o = false)) with
      (opened := opened) (reads := reads) (st := t) as [Hi Ho].
    + reflexivity.
    + intros o1 o2 H1 H2. rewrite existsb_app, H1, H2. reflexivity.
    + intros e _ He. cbn. rewrite He. reflexivity.
    + apply perform_simulated.
    + exact Ht.
    + split; assumption.
  - intros a Ha. rewrite closeEvent_eq, Ha, stop_tracking_eq. cbn [output].
    destruct (tracker_thread a) as [[r [c |]] |]; reflexivity.
Qed.

(** A simulated session with one tracked face: only prints and signals. *)
Lemma simulation_never_touches_hardware_witness :
  let t := FaceTrackerThread_init (ServoController_default false) in
  existsb hardware_action
    (output (run true [Some (mkFrame 640 480 [Box 375 215 50 50])] t)) = false.
Proof.
  intro t.
  apply (proj1 (proj2 simulation_never_touches_hardware) true
           [Some (mkFrame 640 480 [Box 375 215 50 50])] t).
  reflexivity.
Defined.

(** ** The tracking step as a move towards the target *)








(** ** Repeated steps towards a face that stays put *)



(** ** Faces inside the frame *)

(** X9.  For a controller whose centre is the middle of its range (as the
    default 0, 90, 180), a box lying inside a frame of positive even width has
    its proportional target within [[min_angle, max_angle]]: the face centre
    [x + w // 2] cannot ask for an angle the servo is not allowed. *)
Theorem in_frame_target_within_range (s : ServoController) (x w width : Z) :
  min_angle s <= max_angle s ->
  center_angle s * 2 == min_angle s + max_angle s ->
  (0 <= x)%Z -> (0 <= w)%Z -> (x + w <= width)%Z ->
  (0 < width)%Z -> Z.even width = true ->
  min_angle s <= target_angle s (x + w / 2) width
  /\ target_angle s (x + w / 2) width <= max_angle s.
Proof.
  intros Hmm Hmid Hx Hw Hin Hpos Heven.
  apply Z.even_spec in Heven. destruct Heven as [k Hk].
  assert (Hhalf : (width / 2 = k)%Z).
  { subst width. rewrite Z.mul_comm. apply Z.div_mul. discriminate. }
  unfold target_angle. rewrite Hhalf.
  assert (Hk0 : (0 < k)%Z) by lia.
  assert (Hw2 : (0 <= w / 2 <= w)%Z).
  { split; [apply Z.div_pos; lia |]. apply Z.div_le_upper_bound; lia. }
  assert (Hq : 0 < inject_Z k).
  { change 0 with (inject_Z 0). rewrite <- Zlt_Qlt. exact Hk0. }
  set (r := inject_Z (x + w / 2 - k) / inject_Z k).
  assert (Hr1 : r <= 1).
  { unfold r. apply Qle_shift_div_r; [exact Hq |].
    rewrite Qmult_1_l. rewrite <- Zle_Qle. lia. }
  assert (Hr2 : -1 <= r).
  { unfold r. apply Qle_shift_div_l; [exact Hq |].
    assert (E : -1 * inject_Z k == inject_Z (- k))
      by (rewrite inject_Z_opp; ring).
    rewrite E. rewrite <- Zle_Qle. lia. }
  clearbody r. split; nra.
Qed.

(** A 50 by 50 box at column 375 of a 640 wide frame, default controller:
    the target 67.5 is within 0 and 180. *)
Lemma in_frame_target_within_range_witness :
  let s := ServoController_default false in
  0 <= target_angle s (375 + 50 / 2) 640 /\ target_angle s (375 + 50 / 2) 640 <= 180.
Proof.
  intro s.
  apply (in_frame_target_within_range s 375 50 640);
    solve [now vm_compute | lia | reflexivity].
Defined.

(** ** The window's tracking state *)

Lemma start_tracking_eq (a : FaceTrackerServoApp) :
  start_tracking a =
  Returned tt (mkApp (app_servo a) (Some (false, None)) true)
    [ThreadStart; UiTrackingActive; TimerStart 1000].
Proof. destruct a; reflexivity. Qed.

Lemma window_step_consistent (act : window_action) (a : FaceTrackerServoApp) :
  tracking_consistent a -> tracking_consistent (window_step act a).
Proof.
  intro Ha. unfold tracking_consistent in *.
  destruct act as [| | value | opened reads |]; cbn [window_step].
  - unfold toggle_tracking. rewrite final_bind. cbn [get].
    destruct (is_tracking a); cbn [negb].
    + rewrite stop_tracking_eq. reflexivity.
    + rewrite start_tracking_eq. reflexivity.
  - rewrite stop_tracking_eq. reflexivity.
  - unfold on_angle_slider_changed. rewrite final_bind.
    unfold on_app_servo, zoom. rewrite set_angle_eq. cbn. exact Ha.
  - unfold thread_runs. destruct (tracker_thread a) as [rc |] eqn:E.
    + cbn [fst]. unfold on_tracker_thread, zoom.
      destruct (run opened reads _); cbn; exact Ha.
    + cbn [fst]. rewrite E. exact Ha.
  - rewrite closeEvent_eq. reflexivity.
Qed.

Lemma window_steps_consistent (acts : list window_action) :
  forall a, tracking_consistent a -> tracking_consistent (window_steps acts a).
Proof.
  induction acts as [| act acts IH]; intros a Ha; cbn [window_steps].
  - exact Ha.
  - apply IH. apply window_step_consistent. exact Ha.
Qed.

(** X10.  In every state a window can reach through its start and stop
    buttons, its slider, the work of its thread and its close box,
    [is_tracking] is true exactly when the window holds a tracker thread; in
    particular the start button, which toggles, never replaces a thread that
    is still held. *)
Theorem is_tracking_iff_thread_held (gpio : bool) (acts : list window_action) :
  let a := window_steps acts (FaceTrackerServoApp_init gpio) in
  tracking_consistent a
  /\ (tracker_thread a <> None ->
      tracker_thread (window_step StartButton a) = None).
Proof.
  intro a.
  assert (Ha : tracking_consistent a).
  { apply window_steps_consistent. reflexivity. }
  split; [exact Ha |].
  intro Hth. unfold tracking_consistent in Ha. cbn [window_step].
  unfold toggle_tracking. rewrite final_bind. cbn [get].
  destruct (tracker_thread a) as [rc |]; [| contradiction].
  rewrite Ha. cbn [negb]. rewrite stop_tracking_eq. reflexivity.
Qed.

(** A window after start, some work of the thread, a slider move and start
    again: the second press has stopped the thread. *)
Lemma is_tracking_iff_thread_held_witness :
  let a := window_steps
             [StartButton; ThreadRuns true [None]; SliderMoved 30]
             (FaceTrackerServoApp_init false) in
  is_tracking a = true /\ tracker_thread (window_step StartButton a) = None.
Proof.
  intro a.
  destruct (is_tracking_iff_thread_held false
              [StartButton; ThreadRuns true [None]; SliderMoved 30]) as [H1 H2].
  fold a in H1, H2. split.
  - rewrite H1. reflexivity.
  - apply H2. discriminate.
Defined.

(** ** The loop over a sequence of reads *)

Lemma raised_bind {St A B : Type} (m : M St A) (k : A -> M St B) (st : St) :
  raised (bind m k st)
  = match m st with
    | Returned a st1 _ => raised (k a st1)
    | Raised e _ _ => Some e
    end.
Proof.
  unfold bind. destruct (m st) as [a st1 o1 | e st1 o1]; [| reflexivity].
  destruct (k a st1); reflexivity.
Qed.

Lemma published_frames_app (o1 o2 : list event) :
  published_frames (o1 ++ o2) = published_frames o1 ++ published_frames o2.
Proof. apply flat_map_app. Qed.

Lemma perform_publishes_nothing (c : command) (s : ServoController) :
  published_frames (output (perform c s)) = [].
Proof.
  destruct (perform_output c s) as [H | [a H]]; rewrite H.
  - reflexivity.
  - destruct (hardware_available s); reflexivity.
Qed.

Lemma track_face_returns (face_x face_y frame_width frame_height : Z)
  (s : ServoController) :
  (frame_width / 2 <> 0)%Z ->
  raised (track_face face_x face_y frame_width frame_height s) = None.
Proof.
  intro Hc.
  destruct (track_face_cases face_x frame_width s) as [H | [[H Hc'] | [H _]]].
  - rewrite (track_face_dead_zone _ face_y _ frame_height _ H). reflexivity.
  - contradiction.
  - rewrite (track_face_moves _ face_y _ frame_height _ H Hc), set_angle_eq.
    reflexivity.
Qed.

Lemma loop_body_delivers (rd : option Frame) (t : FaceTrackerThread) :
  wide_enough rd ->
  raised (loop_body rd t) = None
  /\ published_frames (output (loop_body rd t)) = delivered_frames [rd].
Proof.
  intro Hw. unfold loop_body.
  destruct rd as [frame |]; [| split; reflexivity].
  cbn [wide_enough] in Hw.
  assert (Hlist : (if (0 <? length (detections frame))%nat
                   then detections frame else []) = detections frame).
  { destruct (detections frame); reflexivity. }
  rewrite Hlist.
  destruct (largest_face (detections frame)) as [[x y w h] |].
  - pose proof (track_face_returns (x + w / 2) (y + h / 2) _ (shape0 frame)
                  (servo_controller t) Hw) as Hr.
    pose proof (perform_publishes_nothing
                  (TrackFace (x + w / 2) (y + h / 2) (shape1 frame) (shape0 frame))
                  (servo_controller t)) as Hp.
    cbn [perform] in Hp.
    unfold bind, on_servo_controller, zoom, get, emit.
    destruct (track_face (x + w / 2) (y + h / 2) (shape1 frame) (shape0 frame)
                (servo_controller t)) as [[] s1 o1 | e s1 o1]; [| discriminate].
    cbn [raised output] in *. split; [reflexivity |].
    rewrite !published_frames_app, Hp. reflexivity.
  - split; reflexivity.
Qed.

Lemma while_running_delivers (reads : list (option Frame)) :
  forall t : FaceTrackerThread,
    Forall wide_enough reads ->
    raised (while_running reads t) = None
    /\ published_frames (output (while_running reads t)) = delivered_frames reads.
Proof.
  induction reads as [| rd later IH]; intros t Hall; cbn [while_running].
  - split; reflexivity.
  - inversion Hall as [| rd' later' Hrd Hlater]; subst.
    destruct (loop_body_delivers rd t Hrd) as [Hr Hp].
    rewrite raised_bind, output_bind, published_frames_app, Hp.
    destruct (loop_body rd t) as [[] t1 o1 | e t1 o1]; [| discriminate].
    destruct (IH t1 Hlater) as [Hr' Hp']. rewrite Hr', Hp'.
    split; [reflexivity |].
    destruct rd; reflexivity.
Qed.

Lemma run_true_eq (reads : list (option Frame)) (t : FaceTrackerThread) :
  let sc := with_current_angle (servo_controller t)
              (clamp (min_angle (servo_controller t))
                 (max_angle (servo_controller t))
                 (center_angle (servo_controller t))) in
  run true reads t
  = match while_running reads (mkThread true (Some true) sc) with
    | Returned a st o =>
        Returned a st
          (CapOpen :: output (center_servo (servo_controller t)) ++ o)
    | Raised e st o =>
        Raised e st
          (CapOpen :: output (center_servo (servo_controller t)) ++ o)
    end.
Proof.
  intro sc. unfold run. cbn [negb].
  unfold bind at 1 2 3 4. unfold emit at 1.
  unfold set_cap, set_running, on_servo_controller, zoom, bind at 1 2, get, put.
  cbn [servo_controller running cap].
  rewrite center_servo_eq, set_angle_eq.
  cbn [servo_controller running cap output]. fold sc.
  destruct (while_running reads (mkThread true (Some true) sc));
    cbn [app]; rewrite ?app_nil_r; reflexivity.
Qed.

(** X11.  When every frame read has a centre column other than 0 (width at
    least 2), [run] with an open camera returns normally whatever the
    detections, and the face lists it hands to [frame_ready] are exactly those
    of the frames read, one per successful read, in the order of the reads;
    failed reads publish nothing. *)
Theorem run_publishes_every_frame (reads : list (option Frame))
  (t : FaceTrackerThread) :
  Forall wide_enough reads ->
  raised (run true reads t) = None
  /\ published_frames (output (run true reads t)) = delivered_frames reads.
Proof.
  intro Hall. rewrite run_true_eq.
  match goal with
  | |- context [while_running reads ?t1] =>
      destruct (while_running_delivers reads t1 Hall) as [Hr Hp];
      destruct (while_running reads t1) as [[] t2 o2 | e t2 o2];
      [| discriminate]
  end.
  cbn [raised output] in *. split; [reflexivity |].
  change (CapOpen :: ?o ++ o2) with ([CapOpen] ++ o ++ o2).
  rewrite !published_frames_app, Hp.
  rewrite (perform_publishes_nothing CenterServo). reflexivity.
Qed.

(** Two frames with a failed read in between: both face lists are
    published, in order. *)
Lemma run_publishes_every_frame_witness :
  let reads := [Some (mkFrame 640 480 [Box 375 215 50 50]); None;
                Some (mkFrame 640 480 [])] in
  let t := FaceTrackerThread_init (ServoController_default true) in
  raised (run true reads t) = None
  /\ published_frames (output (run true reads t)) = [[Box 375 215 50 50]; []].
Proof.
  intros reads t.
  apply (run_publishes_every_frame reads t).
  repeat constructor; now vm_compute.
Defined.

(** X13.  When the camera cannot be opened, [run] returns at once, whatever
    the reads would have been: the servo is not centred, nothing is written to
    it, and [running] is not set.  The window that started the thread still
    has [is_tracking] true and holds the thread until [stop_tracking], which
    then releases the capture and leaves the controller as built. *)
Theorem camera_failure_leaves_servo (reads : list (option Frame)) :
  (forall t : FaceTrackerThread,
      run false reads t
      = Returned tt (mkThread (running t) (Some false) (servo_controller t))
          [CapOpen; PrintMessage])
  /\ (forall gpio : bool,
        let a := fst (thread_runs false reads
                        (final (start_tracking (FaceTrackerServoApp_init gpio)))) in
        is_tracking a = true
        /\ tracker_thread a = Some (false, Some false)
        /\ app_servo a = ServoController_default gpio)
  /\ (forall gpio : bool,
        tracking_session gpio false reads
        = (mkApp (ServoController_default gpio) None false,
           [ThreadStart; UiTrackingActive; TimerStart 1000;
            CapOpen; PrintMessage;
            CapRelease; ThreadWait; UiStopped; TimerStop])).
Proof.
  split; [| split].
  - intros [r c sc]. reflexivity.
  - intros [|]; repeat split; reflexivity.
  - intros [|]; reflexivity.
Qed.

Lemma while_running_faceless (reads : list (option Frame)) :
  forall t : FaceTrackerThread,
    Forall faceless reads ->
    servo_controller (final (while_running reads t)) = servo_controller t.
Proof.
  induction reads as [| rd later IH]; intros t Hall; cbn [while_running].
  - reflexivity.
  - inversion Hall as [| rd' later' Hrd Hlater]; subst.
    rewrite final_bind.
    pose proof (loop_body_servo_controller rd t) as Hb.
    assert (Hnone : tick_command rd = None).
    { unfold tick_command. destruct rd as [frame |]; [| reflexivity].
      cbn [faceless] in Hrd. rewrite Hrd. reflexivity. }
    rewrite Hnone in Hb.
    destruct (loop_body rd t) as [[] t1 o1 | e t1 o1]; cbn [final] in Hb.
    + rewrite (IH t1 Hlater). exact Hb.
    + exact Hb.
Qed.

(** X14.  A session in which no frame shows a face ends centred.  After
    [run] with an open camera over reads without detections, the controller
    is exactly as [center_servo] left it at the start of [run]; with
    [min_angle <= center_angle <= max_angle] the stored angle is
    [center_angle], and for a fresh window it is 90 after [stop_tracking]. *)
Theorem faceless_session_ends_centred (reads : list (option Frame)) :
  Forall faceless reads ->
  (forall t : FaceTrackerThread,
      servo_controller (final (run true reads t))
      = final (center_servo (servo_controller t))
      /\ (min_angle (servo_controller t) <= center_angle (servo_controller t) ->
          center_angle (servo_controller t) <= max_angle (servo_controller t) ->
          current_angle (servo_controller (final (run true reads t)))
          == center_angle (servo_controller t)))
  /\ (forall gpio : bool,
        current_angle (app_servo (fst (tracking_session gpio true reads))) == 90).
Proof.
  intro Hall.
  assert (Hrun : forall t,
             servo_controller (final (run true reads t))
             = final (center_servo (servo_controller t))).
  { intro t. rewrite run_true_eq.
    match goal with
    | |- context [while_running reads ?t1] =>
        pose proof (while_running_faceless reads t1 Hall) as Hw;
        destruct (while_running reads t1)
    end; cbn [final servo_controller] in *; rewrite Hw;
      rewrite center_servo_eq, set_angle_eq; reflexivity. }
  split.
  - intro t. split; [apply Hrun |].
    intros H1 H2. rewrite Hrun, center_servo_eq, set_angle_eq.
    cbn [final]. unfold with_current_angle. cbn [current_angle].
    apply clamp_inside; assumption.
  - intro gpio. unfold tracking_session. cbn [fst].
    rewrite stop_tracking_eq. cbn [final app_servo].
    rewrite start_tracking_eq. cbn [final]. unfold thread_runs.
    cbn [tracker_thread fst]. unfold on_tracker_thread, zoom.
    cbn [fst snd app_servo FaceTrackerServoApp_init].
    pose proof (Hrun (mkThread false None (ServoController_default gpio))) as Hs.
    destruct (run true reads _); cbn [final servo_controller app_servo] in *;
      rewrite Hs; destruct gpio; now vm_compute.
Qed.

(** A session of three reads without a face after the servo was moved by
    hand to 30 and the thread started on it: the controller ends at its
    centre, 90. *)
Lemma faceless_session_ends_centred_witness :
  let reads := [Some (mkFrame 640 480 []); None; Some (mkFrame 640 480 [])] in
  let t := FaceTrackerThread_init
             (final (set_angle 30 (ServoController_default true))) in
  current_angle (servo_controller (final (run true reads t))) == 90.
Proof.
  intros reads t.
  assert (Hall : Forall faceless reads) by (repeat constructor).
  destruct (proj1 (faceless_session_ends_centred reads Hall) t) as [_ H].
  rewrite H; now vm_compute.
Defined.

(** ** The slider *)

Lemma run_configuration (opened : bool) (reads : list (option Frame))
  (t : FaceTrackerThread) :
  configuration (servo_controller (final (run opened reads t)))
  = configuration (servo_controller t).
Proof.
  apply (run_maintains
           (fun s => configuration s = configuration (servo_controller t))
           (fun _ => True)).
  - exact Logic.I.
  - intros. exact Logic.I.
  - intros. exact Logic.I.
  - intros c s Hs. split; [| exact Logic.I].
    rewrite perform_configuration. exact Hs.
  - reflexivity.
Qed.

Lemma window_step_configuration (act : window_action) (a : FaceTrackerServoApp) :
  configuration (app_servo (window_step act a)) = configuration (app_servo a).
Proof.
  destruct act as [| | value | opened reads |]; cbn [window_step].
  - unfold toggle_tracking. rewrite final_bind. cbn [get].
    destruct (negb (is_tracking a)).
    + rewrite start_tracking_eq. reflexivity.
    + rewrite stop_tracking_eq. reflexivity.
  - rewrite stop_tracking_eq. reflexivity.
  - unfold on_angle_slider_changed. rewrite final_bind.
    unfold on_app_servo, zoom. rewrite set_angle_eq. reflexivity.
  - unfold thread_runs. destruct (tracker_thread a) as [rc |]; [| reflexivity].
    cbn [fst]. unfold on_tracker_thread, zoom.
    pose proof (run_configuration opened reads
                  (mkThread (fst rc) (snd rc) (app_servo a))) as H.
    destruct (run opened reads _); cbn [final servo_controller app_servo] in *;
      exact H.
  - rewrite closeEvent_eq. reflexivity.
Qed.

Lemma window_steps_configuration (acts : list window_action) :
  forall a, configuration (app_servo (window_steps acts a))
            = configuration (app_servo a).
Proof.
  induction acts as [| act acts IH]; intro a; cbn [window_steps].
  - reflexivity.
  - rewrite IH. apply window_step_configuration.
Qed.

(** X15.  The angle label tells the truth after a slider move.  In every
    state a window can reach, moving the slider to a value of its range 0 to
    180 stores exactly that value as [current_angle], commands the servo once,
    and then sets the label to the same value; nothing is clamped away. *)
Theorem slider_label_matches_angle (gpio : bool) (acts : list window_action)
  (value : Z) :
  (0 <= value)%Z -> (value <= 180)%Z ->
  let a := window_steps acts (FaceTrackerServoApp_init gpio) in
  let r := on_angle_slider_changed value a in
  raised r = None
  /\ current_angle (app_servo (final r)) == inject_Z value
  /\ output r
     = output (set_angle (inject_Z value) (app_servo a))
       ++ [UiAngleLabel (inject_Z value)].
Proof.
  intros H0 H180 a r.
  pose proof (window_steps_configuration acts (FaceTrackerServoApp_init gpio))
    as Hcfg.
  fold a in Hcfg.
  destruct (built_configuration 18 0 180 90 gpio (app_servo a))
    as (Hmn & Hmx & _).
  { rewrite Hcfg. destruct gpio; reflexivity. }
  subst r. unfold on_angle_slider_changed, bind, on_app_servo, zoom, emit.
  rewrite set_angle_eq. cbn [raised final output app_servo].
  split; [reflexivity |]. split; [| reflexivity].
  unfold with_current_angle. cbn [current_angle]. rewrite Hmn, Hmx.
  apply clamp_inside.
  - change 0 with (inject_Z 0). rewrite <- Zle_Qle. exact H0.
  - change 180 with (inject_Z 180). rewrite <- Zle_Qle. exact H180.
Qed.

(** After a session with a tracked face, the slider is moved to 30. *)
Lemma slider_label_matches_angle_witness :
  let a := window_steps
             [StartButton;
              ThreadRuns true [Some (mkFrame 640 480 [Box 375 215 50 50])];
              StopButton]
             (FaceTrackerServoApp_init false) in
  current_angle (app_servo (final (on_angle_slider_changed 30 a))) == 30.
Proof.
  intro a.
  apply (slider_label_matches_angle false
           [StartButton;
            ThreadRuns true [Some (mkFrame 640 480 [Box 375 215 50 50])];
            StopButton] 30); lia.
Defined.
